(** * The eBird life-list importer of [fetch-ebird.js]

    A shallow embedding of [parseEbirdDate], [parseCSV], [getExistingProfile]
    and the merge step of [fetchEbirdLifeList], with the properties of the
    importer stated and proved over it.

    JavaScript strings are sequences of UTF-16 code units; they are modelled
    as lists of code units ([N]), so that [trim], [split], [length] and
    indexing mean what they mean in the source. *)

From Stdlib Require Import ZArith NArith Ascii String DecimalString Sorting.Sorted Floats.
From stdpp Require Import base list gmap.

Local Open Scope N_scope.

(** ** JavaScript strings *)

Module JS.

Definition jsstr := list N.

(** An ASCII literal as a JavaScript string. *)
Definition js (s : string) : jsstr :=
  (fun a : ascii => N_of_ascii a) <$> list_ascii_of_string s.

Definition ch_quote : N := 34.
Definition ch_comma : N := 44.
Definition ch_space : N := 32.
Definition ch_newline : N := 10.
Definition ch_zero : N := 48.
Definition ch_hyphen : N := 45.

(** WhiteSpace and LineTerminator code points of ECMAScript, the characters
    that [String.prototype.trim] strips. *)
Definition is_white (c : N) : bool :=
  ((9 <=? c) && (c <=? 13)) || (c =? 32) || (c =? 160) || (c =? 5760)
  || ((8192 <=? c) && (c <=? 8202)) || (c =? 8232) || (c =? 8233)
  || (c =? 8239) || (c =? 8287) || (c =? 12288) || (c =? 65279).

Fixpoint trimStart (s : jsstr) : jsstr :=
  match s with
  | [] => []
  | c :: r => if is_white c then trimStart r else s
  end.

Fixpoint trimEnd (s : jsstr) : jsstr :=
  match s with
  | [] => []
  | c :: r =>
      match trimEnd r with
      | [] => if is_white c then [] else [c]
      | r' => c :: r'
      end
  end.

(** [s.trim()] *)
Definition trim (s : jsstr) : jsstr := trimEnd (trimStart s).

(** [s.split(sep)] for a one-character separator: never the empty array. *)
Fixpoint split (sep : N) (s : jsstr) : list jsstr :=
  match s with
  | [] => [[]]
  | c :: r =>
      if c =? sep then [] :: split sep r
      else match split sep r with
           | f :: fs => (c :: f) :: fs
           | [] => [[c]]
           end
  end.

(** [parts.join(sep)], the inverse of [split] on separator-free parts. *)
Fixpoint join (sep : N) (parts : list jsstr) : jsstr :=
  match parts with
  | [] => []
  | [p] => p
  | p :: ps => p ++ sep :: join sep ps
  end.

(** [s.padStart(n, fill)] for a one-character [fill]. *)
Definition padStart (n : nat) (fill : N) (s : jsstr) : jsstr :=
  replicate (n - length s) fill ++ s.

(** [s.replace(re, '')] where [re] is the global pattern matching one
    double-quote character. *)
Definition strip_quotes (s : jsstr) : jsstr :=
  List.filter (fun c => negb (c =? ch_quote)) s.

(** [a < b] and [a <= b] on strings: lexicographic on code units. *)
Fixpoint str_ltb (a b : jsstr) : bool :=
  match a, b with
  | _, [] => false
  | [], _ :: _ => true
  | x :: a', y :: b' => (x <? y) || ((x =? y) && str_ltb a' b')
  end.

Definition str_leb (a b : jsstr) : bool := negb (str_ltb b a).

(** A value read out of an object: a string, [undefined], or some other
    object, of which only its truthiness and its [ToString] text matter. *)
Inductive jsval :=
| VUndefined
| VString (s : jsstr)
| VObject (text : jsstr).

(** [!!v] *)
Definition truthy (v : jsval) : bool :=
  match v with
  | VUndefined => false
  | VString s => negb (Nat.eqb (length s) 0)
  | VObject _ => true
  end.

(** [`${v}`] *)
Definition ToString (v : jsval) : jsstr :=
  match v with
  | VUndefined => js "undefined"
  | VString s => s
  | VObject text => text
  end.

Fixpoint assoc (k : jsstr) (table : list (jsstr * jsstr)) : option jsstr :=
  match table with
  | [] => None
  | (k', v) :: rest => if decide (k = k') then Some v else assoc k rest
  end.

(** The properties every plain object inherits from [Object.prototype],
    each with the text its value converts to: eleven built-in functions
    and the [__proto__] accessor, which yields [Object.prototype] itself. *)
Definition Object_prototype : list (jsstr * jsstr) :=
  [ (js "constructor", js "function Object() { [native code] }");
    (js "__defineGetter__", js "function __defineGetter__() { [native code] }");
    (js "__defineSetter__", js "function __defineSetter__() { [native code] }");
    (js "hasOwnProperty", js "function hasOwnProperty() { [native code] }");
    (js "__lookupGetter__", js "function __lookupGetter__() { [native code] }");
    (js "__lookupSetter__", js "function __lookupSetter__() { [native code] }");
    (js "isPrototypeOf", js "function isPrototypeOf() { [native code] }");
    (js "propertyIsEnumerable", js "function propertyIsEnumerable() { [native code] }");
    (js "toString", js "function toString() { [native code] }");
    (js "valueOf", js "function valueOf() { [native code] }");
    (js "__proto__", js "[object Object]");
    (js "toLocaleString", js "function toLocaleString() { [native code] }") ].

(** [obj[k]] on an object literal whose own properties are the string
    table [own]: own properties first, then the prototype. *)
Definition get (own : list (jsstr * jsstr)) (k : jsstr) : jsval :=
  match assoc k own with
  | Some v => VString v
  | None =>
      match assoc k Object_prototype with
      | Some text => VObject text
      | None => VUndefined
      end
  end.

End JS.

Import JS.

(** ** [parseEbirdDate] *)

Definition months : list (jsstr * jsstr) :=
  [ (js "Jan", js "01"); (js "Feb", js "02"); (js "Mar", js "03"); (js "Apr", js "04");
    (js "May", js "05"); (js "Jun", js "06"); (js "Jul", js "07"); (js "Aug", js "08");
    (js "Sep", js "09"); (js "Oct", js "10"); (js "Nov", js "11"); (js "Dec", js "12") ].

(** [None] is the source's [null]. *)
Definition parseEbirdDate (dateStr : jsstr) : option jsstr :=
  let parts := split ch_space (trim dateStr) in
  if negb (Nat.eqb (length parts) 3) then None
  else
    let day := padStart 2 ch_zero (nth 0 parts []) in
    let month := get months (nth 1 parts []) in
    let year := nth 2 parts [] in
    if negb (truthy month) then None
    else Some (year ++ js "-" ++ ToString month ++ js "-" ++ day).

(** ** The row tokenizer of [parseCSV] *)

(** The three loop variables of the inner [for] loop. *)
Record tokenizer := {
  columns : list jsstr;
  current : jsstr;
  inQuotes : bool
}.

(** One iteration of the inner loop, on the character [char = line[j]]. *)
Definition tokenizer_step (st : tokenizer) (char : N) : tokenizer :=
  if char =? ch_quote then
    {| columns := columns st; current := current st; inQuotes := negb (inQuotes st) |}
  else if (char =? ch_comma) && negb (inQuotes st) then
    {| columns := columns st ++ [trim (current st)]; current := []; inQuotes := inQuotes st |}
  else
    {| columns := columns st; current := current st ++ [char]; inQuotes := inQuotes st |}.

(** The inner loop over [line] and the [columns.push(current.trim())] after it. *)
Definition tokenize (line : jsstr) : list jsstr :=
  let st := fold_left tokenizer_step line
              {| columns := []; current := []; inQuotes := false |} in
  columns st ++ [trim (current st)].

(** ** Observations and the outer loop of [parseCSV] *)

Record observation := {
  date : jsstr;
  sciName : jsstr;
  common : jsstr;
  location : jsstr;
  region : jsstr
}.

(** The object literal pushed for a row whose date normalized to [d]. *)
Definition make_observation (d : jsstr) (cols : list jsstr) : observation :=
  {| date := d;
     sciName := nth 4 cols [];
     common := nth 3 cols [];
     location := strip_quotes (nth 6 cols []);
     region := nth 7 cols [] |}.

(** The body of the outer loop for the raw line [lines[i]]: the observations
    array after the iteration. *)
Definition row_step (observations : list observation) (raw : jsstr) : list observation :=
  let line := trim raw in
  match line with
  | [] => observations
  | _ :: _ =>
      let cols := tokenize line in
      if (9 <=? length cols)%nat then
        match parseEbirdDate (nth 8 cols []) with
        | Some ((_ :: _) as d) => observations ++ [make_observation d cols]
        | _ => observations
        end
      else observations
  end.

(** The observations array when the outer loop ends: the loop starts at
    index 1 of [csvContent.split('\n')]. *)
Definition collect (csvContent : jsstr) : list observation :=
  fold_left row_step (tail (split ch_newline csvContent)) [].

(** ** [Array.prototype.sort] with a comparison function

    The comparison function returns a number or [NaN] ([None]).  [sort] is
    stable; for a consistent comparison function every stable sort returns
    the list computed here, by insertion from the right.  An inconsistent
    one (one that returns [NaN]) leaves the order to the implementation:
    the theorems below then use only that the result is a permutation. *)

Section ArraySort.
Context {A : Type} (comparefn : A -> A -> option Z).

(** [SortCompare(x, y) < 0]; a [NaN] counts as [+0]. *)
Definition sorts_before (x y : A) : bool :=
  match comparefn x y with
  | Some v => (v <? 0)%Z
  | None => false
  end.

Fixpoint sort_insert (x : A) (sorted : list A) : list A :=
  match sorted with
  | [] => [x]
  | y :: rest => if sorts_before y x then y :: sort_insert x rest else x :: sorted
  end.

Definition Array_sort (l : list A) : list A := foldr sort_insert [] l.

End ArraySort.

(** ** [Date]: time values of calendar dates *)

Module Date.

Definition digit (c : N) : option Z :=
  if (48 <=? c) && (c <=? 57) then Some (Z.of_N c - 48)%Z else None.

Fixpoint number_from (acc : Z) (s : jsstr) : option Z :=
  match s with
  | [] => Some acc
  | c :: r =>
      match digit c with
      | Some d => number_from (10 * acc + d)%Z r
      | None => None
      end
  end.

Definition number (s : jsstr) : option Z := number_from 0%Z s.

(** The year, month and day of a string in the complete calendar-date
    forms of the ECMAScript date-time string format, [YYYY-MM-DD] and
    [+YYYYYY-MM-DD] / [-YYYYYY-MM-DD] (where [-000000] is not a year). *)
Definition calendar_fields (s : jsstr) : option (Z * Z * Z) :=
  match s with
  | [y1; y2; y3; y4; h1; m1; m2; h2; d1; d2] =>
      if (h1 =? ch_hyphen) && (h2 =? ch_hyphen) then
        y ← number [y1; y2; y3; y4];
        m ← number [m1; m2];
        d ← number [d1; d2];
        Some (y, m, d)
      else None
  | [sg; y1; y2; y3; y4; y5; y6; h1; m1; m2; h2; d1; d2] =>
      if (h1 =? ch_hyphen) && (h2 =? ch_hyphen) then
        y ← number [y1; y2; y3; y4; y5; y6];
        m ← number [m1; m2];
        d ← number [d1; d2];
        if sg =? 43 then Some (y, m, d)
        else if (sg =? ch_hyphen) && negb (y =? 0)%Z then Some ((- y)%Z, m, d)
        else None
      else None
  | _ => None
  end.

Definition InLeapYear (y : Z) : bool :=
  ((y mod 4 =? 0) && (negb (y mod 100 =? 0) || (y mod 400 =? 0)))%Z.

Definition DaysInMonth (y m : Z) : Z :=
  match m with
  | 2 => if InLeapYear y then 29 else 28
  | 4 | 6 | 9 | 11 => 30
  | _ => 31
  end%Z.

(** Days of the year before the first of month [m] (1 to 12). *)
Definition DaysBeforeMonth (y m : Z) : Z :=
  (match m with
   | 1 => 0 | 2 => 31 | 3 => 59 | 4 => 90 | 5 => 120 | 6 => 151
   | 7 => 181 | 8 => 212 | 9 => 243 | 10 => 273 | 11 => 304 | _ => 334
   end + if InLeapYear y && (2 <? m) then 1 else 0)%Z.

Definition DayFromYear (y : Z) : Z :=
  (365 * (y - 1970) + (y - 1969) / 4 - (y - 1901) / 100 + (y - 1601) / 400)%Z.

(** [MakeDay(y, m - 1, d)] for a month [m] counted from 1. *)
Definition MakeDay (y m d : Z) : Z :=
  (DayFromYear y + DaysBeforeMonth y m + d - 1)%Z.

Definition msPerDay : Z := 86400000.

Definition TimeClip (t : Z) : option Z :=
  if (Z.abs t <=? 8640000000000000)%Z then Some t else None.

Definition valid_fields (y m d : Z) : bool :=
  ((1 <=? m) && (m <=? 12) && (1 <=? d) && (d <=? DaysInMonth y m))%Z.

Section Parse.

(** [Date.parse] on every string that is not a complete calendar date of
    the format with in-range fields: forms with a time of day (read in the
    host's time zone), out-of-range fields, and the formats an
    implementation accepts besides.  [None] is [NaN]. *)
Variable parse_other : jsstr -> option Z.

(** The time value of [new Date(s)], in milliseconds since the epoch;
    [None] is an invalid date.  A date without a time of day is UTC. *)
Definition parse (s : jsstr) : option Z :=
  match calendar_fields s with
  | Some (y, m, d) =>
      if valid_fields y m d then TimeClip (MakeDay y m d * msPerDay)%Z
      else parse_other s
  | None => parse_other s
  end.

End Parse.

End Date.

(** ** [parseCSV] *)

Section ParseCSV.

(** What the implementation makes of the date texts outside the format
    (the parameter of [Date.parse]). *)
Variable Date_parse_other : jsstr -> option Z.

(** [(a, b) => new Date(a.date) - new Date(b.date)]: the difference of two
    time values, [NaN] when either date is invalid.  Time values are
    integers below 2^53 in magnitude, so the sign of the floating-point
    difference is the sign of the exact one. *)
Definition by_date (a b : observation) : option Z :=
  match Date.parse Date_parse_other (date a), Date.parse Date_parse_other (date b) with
  | Some ta, Some tb => Some (ta - tb)%Z
  | _, _ => None
  end.

Definition parseCSV (csvContent : jsstr) : list observation :=
  Array_sort by_date (collect csvContent).

End ParseCSV.

(** ** The prior export and the merge step *)

(** What [JSON.parse] returns.  Numbers are binary64 floats. *)
#[warnings="-register-all"]
Inductive json :=
| JNull
| JBool (b : bool)
| JNumber (x : float)
| JString (s : jsstr)
| JArray (items : list json)
| JObject (props : gmap jsstr json).

(** [!!v] on a parsed value. *)
Definition json_truthy (v : json) : bool :=
  match v with
  | JNull => false
  | JBool b => b
  | JNumber x => negb (PrimFloat.eqb x 0%float) && negb (PrimFloat.is_nan x)
  | JString s => negb (Nat.eqb (length s) 0)
  | JArray _ | JObject _ => true
  end.

Inductive error := SystemError | SyntaxError | TypeError.

(** The outcome of a statement or call: a value, or a thrown error. *)
Inductive completion (A : Type) :=
| Normal (a : A)
| Throw (e : error).
Arguments Normal {A} a.
Arguments Throw {A} e.

Definition andThen {A B} (c : completion A) (k : A -> completion B) : completion B :=
  match c with
  | Normal a => k a
  | Throw e => Throw e
  end.

(** [try { body } catch (e) { handler }] *)
Definition try_catch {A} (body : completion A) (handler : error -> completion A) : completion A :=
  match body with
  | Normal a => Normal a
  | Throw e => handler e
  end.

(** [fs.readFileSync(dataPath, 'utf-8')] where [file] is the content of
    [data.json], [None] when it is missing or cannot be read. *)
Definition readFileSync (file : option jsstr) : completion jsstr :=
  match file with
  | Some content => Normal content
  | None => Throw SystemError
  end.

(** [existing.profile]: reading a property of [null] throws; a primitive,
    an array, or an object without that property gives [undefined] ([None]),
    as no prototype defines [profile]. *)
Definition get_profile (existing : json) : completion (option json) :=
  match existing with
  | JNull => Throw TypeError
  | JObject props => Normal (props !! js "profile")
  | _ => Normal None
  end.

(** [v || {}] *)
Definition or_empty_object (v : option json) : json :=
  match v with
  | Some p => if json_truthy p then p else JObject ∅
  | None => JObject ∅
  end.

Section Profile.

(** [JSON.parse]; [None] when it throws a [SyntaxError]. *)
Variable JSON_parse : jsstr -> option json.

Definition JSON_parse_call (text : jsstr) : completion json :=
  match JSON_parse text with
  | Some v => Normal v
  | None => Throw SyntaxError
  end.

Definition getExistingProfile (file : option jsstr) : completion json :=
  try_catch
    (andThen (readFileSync file) (fun content =>
     andThen (JSON_parse_call content) (fun existing =>
     andThen (get_profile existing) (fun p =>
     Normal (or_empty_object p)))))
    (fun _ => Normal (JObject ∅)).

End Profile.

(** The decimal text of an array index. *)
Definition index_key (i : nat) : jsstr :=
  js (NilEmpty.string_of_uint (Nat.to_uint i)).

(** The own enumerable properties that [{...v}] copies: the properties of an
    object, the elements of an array and the code units of a string under
    their indices, nothing for the other primitives. *)
Definition spread (v : json) : gmap jsstr json :=
  match v with
  | JObject props => props
  | JArray items => list_to_map (imap (fun i x => (index_key i, x)) items)
  | JString s => list_to_map (imap (fun i c => (index_key i, JString [c])) s)
  | JNull | JBool _ | JNumber _ => ∅
  end.

(** The [dataJson] object written to [data.json]. *)
Record Export := {
  profile : gmap jsstr json;
  observations : list observation;
  exportedAt : jsstr
}.

(** The object literal [dataJson] of [fetchEbirdLifeList]; [now1] and [now2]
    are the texts of the two [new Date().toISOString()] calls, in order. *)
Definition merge (existingProfile : json) (obs : list observation)
    (now1 now2 : jsstr) : Export :=
  {| profile := <[js "lastSync" := JString now1]> (spread existingProfile);
     observations := obs;
     exportedAt := now2 |}.

(** ** Notions of the specification *)

(** A string without the character [c]. *)
Definition free_of (c : N) (s : jsstr) : Prop := c ∉ s.

(** The fields of a line as the specification words them: a comma ends a
    field unless an odd number of quote characters precedes it; the quote
    characters themselves belong to no field. *)
Fixpoint quoted_fields (inside : bool) (line : jsstr) : list jsstr :=
  match line with
  | [] => [[]]
  | c :: r =>
      if c =? ch_quote then quoted_fields (negb inside) r
      else if (c =? ch_comma) && negb inside then [] :: quoted_fields inside r
      else match quoted_fields inside r with
           | f :: fs => (c :: f) :: fs
           | [] => [[c]]
           end
  end.

(** The parts of a string separated by runs of white space. *)
Fixpoint white_parts_from (word : jsstr) (s : jsstr) : list jsstr :=
  match s with
  | [] => match word with [] => [] | _ => [word] end
  | c :: r =>
      if is_white c then
        match word with
        | [] => white_parts_from [] r
        | _ => word :: white_parts_from [] r
        end
      else white_parts_from (word ++ [c]) r
  end.

Definition white_parts (s : jsstr) : list jsstr := white_parts_from [] s.

Definition is_digit (c : N) : bool := (48 <=? c) && (c <=? 57).

Definition all_digits (s : jsstr) : bool := forallb is_digit s.

(** A day of one or two digits and a year of four. *)
Definition is_day (s : jsstr) : bool :=
  all_digits s && ((length s =? 1)%nat || (length s =? 2)%nat).

Definition is_year (s : jsstr) : bool :=
  all_digits s && (length s =? 4)%nat.

(** The shape [YYYY-MM-DD]: ten characters, digits around two hyphens. *)
Definition iso_shape (s : jsstr) : bool :=
  match s with
  | [y1; y2; y3; y4; h1; m1; m2; h2; d1; d2] =>
      all_digits [y1; y2; y3; y4; m1; m2; d1; d2] && (h1 =? ch_hyphen) && (h2 =? ch_hyphen)
  | _ => false
  end.

(** A date of the calendar written [YYYY-MM-DD]: the shape above, a month
    from 01 to 12 and a day that the month has in that year. *)
Definition calendar_date (s : jsstr) : bool :=
  iso_shape s &&
  match Date.calendar_fields s with
  | Some (y, m, d) => Date.valid_fields y m d
  | None => false
  end.

(** Ascending by the date string, every earlier record against every later. *)
Definition date_sorted (l : list observation) : Prop :=
  StronglySorted (fun a b => str_leb (date a) (date b) = true) l.

(** The records of a given date, in the order of the list. *)
Definition with_date (d : jsstr) (l : list observation) : list observation :=
  filter (fun o => date o = d) l.

(** What a well-formed data row yields: a line of at least nine columns
    whose ninth is a day, a recognized month and a year, and the record
    with the five fields taken from columns 3, 4, 6, 7 and 8. *)
Definition well_formed_row (row : jsstr) (o : observation) : Prop :=
  free_of ch_newline row /\
  (9 <= length (tokenize (trim row)))%nat /\
  exists d mon mm y,
    is_day d = true /\ is_year y = true /\ assoc mon months = Some mm /\
    nth 8 (tokenize (trim row)) [] = d ++ js " " ++ mon ++ js " " ++ y /\
    o = {| date := y ++ js "-" ++ mm ++ js "-" ++ padStart 2 ch_zero d;
           sciName := nth 4 (tokenize (trim row)) [];
           common := nth 3 (tokenize (trim row)) [];
           location := nth 6 (tokenize (trim row)) [];
           region := nth 7 (tokenize (trim row)) [] |}.

(** ** Auxiliary definitions of the proofs *)

(** [cur] put in front of the first field. *)
Definition push_front (cur : jsstr) (fs : list jsstr) : list jsstr :=
  match fs with
  | f :: r => (cur ++ f) :: r
  | [] => [cur]
  end.

(** The value of a decimal digit. *)
Definition dig (c : N) : Z := (Z.of_N c - 48)%Z.

(** The time value of a record whose date is a calendar date. *)
Definition time_of (o : observation) : Z :=
  match Date.calendar_fields (date o) with
  | Some (y, m, d) => (Date.MakeDay y m d * Date.msPerDay)%Z
  | None => 0%Z
  end.

(** ** Inputs of the examples *)

Definition quoted_line : jsstr :=
  js "A," ++ ch_quote :: js "B, C" ++ ch_quote :: js ",D".

(** A data row with the given location and date columns. *)
Definition robin_row (place when : jsstr) : jsstr :=
  js "1,amerob,20985,American Robin,Turdus migratorius,," ++ place
  ++ js ",US-MA," ++ when.

Definition robin (place iso : jsstr) : observation :=
  {| date := iso; sciName := js "Turdus migratorius"; common := js "American Robin";
     location := place; region := js "US-MA" |}.

Definition header_line : jsstr :=
  js "Row #,Species Code,Taxonomic Order,Common Name,Scientific Name,Subspecies,Location,S/P,Date".

Definition short_row : jsstr := js "1,amerob,20985,American Robin,5 Jan 2024".

(** Three rows out of order, as in the specification. *)
Definition three_rows : list jsstr :=
  [ robin_row (js "Fresh Pond") (js "2 Mar 2024");
    robin_row (js "Mount Auburn") (js "1 Jan 2024");
    robin_row (js "Boston Common") (js "5 Jan 2024") ].

(** Two rows, the first with the year written in the expanded form of the
    date-time string format. *)
Definition expanded_year_csv : jsstr :=
  join ch_newline
    [ header_line;
      robin_row (js "Fresh Pond") (js "5 Jan +002024");
      robin_row (js "Mount Auburn") (js "1 Jan 2023") ].

(** A date whose day token contains a tab, and one whose month token names
    a property that every object inherits. *)
Definition tab_date : jsstr := js "5" ++ 9 :: js "6 Jan 2024".

Definition constructor_date : jsstr := js "5 constructor 2024".

(** A stand-in for [JSON.parse] that accepts one text, an export with the
    profile of the template. *)
Definition quoted (s : jsstr) : jsstr := ch_quote :: s ++ [ch_quote].

Definition template_text : jsstr :=
  js "{" ++ quoted (js "profile") ++ js ":{" ++ quoted (js "name") ++ js ":"
  ++ quoted (js "Ada") ++ js "," ++ quoted (js "location") ++ js ":"
  ++ quoted (js "Boston") ++ js "}}".

Definition template_profile : gmap jsstr json :=
  {[ js "name" := JString (js "Ada"); js "location" := JString (js "Boston") ]}.

Definition parse_template (text : jsstr) : option json :=
  if decide (text = template_text)
  then Some (JObject {[ js "profile" := JObject template_profile ]})
  else None.

(** A fallback of [Date.parse] that recognizes nothing. *)
Definition no_other_dates (s : jsstr) : option Z := None.

(** ** The data step and the report of [fetchEbirdLifeList]

    After the download the function parses the text, reads the prior
    profile, builds [dataJson] and reports what it saved.  The browser
    session before and the file operations in between are not modelled. *)

Section DataStep.

Variable JSON_parse : jsstr -> option json.
Variable Date_parse_other : jsstr -> option Z.

(** From [parseCSV(csvContent)] to the object literal [dataJson]; [file]
    is the content of [data.json] as for [readFileSync]. *)
Definition buildDataJson (csvContent : jsstr) (file : option jsstr)
    (now1 now2 : jsstr) : completion Export :=
  let obs := parseCSV Date_parse_other csvContent in
  andThen (getExistingProfile JSON_parse file) (fun existingProfile =>
  Normal (merge existingProfile obs now1 now2)).

End DataStep.

(** The three [console.log] lines after [data.json] is written; the first
    starts with the character U+2728. *)
Definition summary_lines (obs : list observation) : list jsstr :=
  [ 10024 :: js " Saved to data.json";
    js "   Species: " ++ index_key (length obs) ]
  ++ (if (0 <? length obs)%nat then
        match obs !! (length obs - 1)%nat with
        | Some latest =>
            [ js "   Latest: " ++ common latest ++ js " (" ++ date latest ++ js ")" ]
        | None => []
        end
      else []).

(** ** Further notions for the properties of the code *)

(** The number of quote characters of a line. *)
Definition count_quotes (s : jsstr) : nat :=
  length (List.filter (fun c => c =? ch_quote) s).

(** A line with a carriage return at its end, as in a file with CRLF line
    ends that is split at the line feeds. *)
Definition with_cr (line : jsstr) : jsstr := line ++ [13].

(** Inputs of the further examples. *)
Definition undated_row : jsstr := robin_row (js "Fresh Pond") (js "Jan 2024").

Definition sorted_rows : list jsstr :=
  [ robin_row (js "Mount Auburn") (js "1 Jan 2024");
    robin_row (js "Boston Common") (js "5 Jan 2024");
    robin_row (js "Fresh Pond") (js "2 Mar 2024") ].

(** * Properties *)

(** ** Strings: [split], [join] and [trim] *)

Lemma split_nonempty sep s : split sep s <> [].
Proof.
  destruct s as [|c r]; simpl; [done|].
  destruct (c =? sep); [done|]. by destruct (split sep r).
Qed.

Lemma split_free sep s : free_of sep s -> split sep s = [s].
Proof.
  unfold free_of. induction s as [|c r IH]; intros Hfree; simpl; [done|].
  apply not_elem_of_cons in Hfree as [Hc Hr].
  destruct (N.eqb_spec c sep) as [->|_]; [done|].
  by rewrite IH.
Qed.

Lemma split_app sep a b :
  free_of sep a -> split sep (a ++ sep :: b) = a :: split sep b.
Proof.
  unfold free_of. induction a as [|c r IH]; intros Hfree; simpl.
  - by rewrite N.eqb_refl.
  - apply not_elem_of_cons in Hfree as [Hc Hr].
    destruct (N.eqb_spec c sep) as [->|_]; [done|].
    by rewrite IH.
Qed.

Lemma split_parts_free sep s : Forall (free_of sep) (split sep s).
Proof.
  unfold free_of. induction s as [|c r IH]; simpl.
  - repeat constructor. apply not_elem_of_nil.
  - destruct (N.eqb_spec c sep) as [->|Hne].
    + constructor; [apply not_elem_of_nil | done].
    + destruct (split sep r) as [|f fs]; simpl.
      * repeat constructor. rewrite list_elem_of_singleton. congruence.
      * inversion IH as [|? ? Hf Hfs]; subst. constructor; [|done].
        rewrite not_elem_of_cons. split; [congruence | done].
Qed.

Lemma split_join sep parts :
  parts <> [] -> Forall (free_of sep) parts -> split sep (join sep parts) = parts.
Proof.
  induction parts as [|p ps IH]; intros Hne Hfree; [done|].
  inversion Hfree as [|? ? Hp Hps]; subst.
  destruct ps as [|p' ps'].
  - simpl. by apply split_free.
  - change (join sep (p :: p' :: ps')) with (p ++ sep :: join sep (p' :: ps')).
    rewrite split_app by done. f_equal. by apply IH.
Qed.

Lemma trimStart_elem c s : c ∈ trimStart s -> c ∈ s.
Proof.
  induction s as [|x r IH]; simpl; [done|].
  destruct (is_white x); [|done]. intros H. right. by apply IH.
Qed.

Lemma trimEnd_elem c s : c ∈ trimEnd s -> c ∈ s.
Proof.
  induction s as [|x r IH]; simpl; [done|].
  destruct (trimEnd r) as [|y r'] eqn:E.
  - destruct (is_white x); [by intros ?%elem_of_nil|].
    intros ->%list_elem_of_singleton. by left.
  - intros [->|H]%elem_of_cons; [by left|]. right. by apply IH.
Qed.

Lemma trim_elem c s : c ∈ trim s -> c ∈ s.
Proof. intros H. by apply trimStart_elem, trimEnd_elem. Qed.

Lemma trim_free c s : free_of c s -> free_of c (trim s).
Proof. unfold free_of. intros H Hin. by apply H, trim_elem. Qed.

Lemma trimEnd_last s c : is_white c = false -> trimEnd (s ++ [c]) = s ++ [c].
Proof.
  intros Hc. induction s as [|x r IH]; simpl.
  - by rewrite Hc.
  - rewrite IH. by destruct r.
Qed.

(** A string that neither starts nor ends with white space is its own trim. *)
Lemma trim_fixed c1 mid c2 :
  is_white c1 = false -> is_white c2 = false ->
  trim (c1 :: mid ++ [c2]) = c1 :: mid ++ [c2].
Proof.
  intros H1 H2. unfold trim. cbn [trimStart]. rewrite H1.
  apply (trimEnd_last (c1 :: mid) c2 H2).
Qed.

(** ** The tokenizer against the fields of the specification *)

Lemma quoted_fields_nonempty inside line : quoted_fields inside line <> [].
Proof.
  revert inside. induction line as [|c r IH]; intros inside; simpl; [done|].
  destruct (c =? ch_quote); [apply IH|].
  destruct ((c =? ch_comma) && negb inside); [done|].
  by destruct (quoted_fields inside r).
Qed.

Lemma tokenizer_loop line st :
  let st' := fold_left tokenizer_step line st in
  columns st' ++ [trim (current st')]
  = columns st ++ (trim <$> push_front (current st) (quoted_fields (inQuotes st) line)).
Proof.
  revert st. induction line as [|c r IH]; intros st; simpl.
  - by rewrite app_nil_r.
  - rewrite IH. unfold tokenizer_step.
    destruct (c =? ch_quote); simpl; [done|].
    destruct ((c =? ch_comma) && negb (inQuotes st)); simpl.
    + rewrite app_nil_r, <- app_assoc. simpl. do 2 f_equal.
      pose proof (quoted_fields_nonempty (inQuotes st) r).
      by destruct (quoted_fields (inQuotes st) r).
    + pose proof (quoted_fields_nonempty (inQuotes st) r).
      destruct (quoted_fields (inQuotes st) r); [done|]. simpl.
      by rewrite <- app_assoc.
Qed.

Lemma tokenize_fields line : tokenize line = trim <$> quoted_fields false line.
Proof.
  unfold tokenize. rewrite tokenizer_loop. simpl.
  pose proof (quoted_fields_nonempty false line).
  by destruct (quoted_fields false line).
Qed.

Lemma quoted_fields_free inside line :
  Forall (free_of ch_quote) (quoted_fields inside line).
Proof.
  unfold free_of. revert inside.
  induction line as [|c r IH]; intros inside; simpl.
  - repeat constructor. apply not_elem_of_nil.
  - destruct (N.eqb_spec c ch_quote) as [->|Hne]; [apply IH|].
    destruct ((c =? ch_comma) && negb inside).
    + constructor; [apply not_elem_of_nil | apply IH].
    + specialize (IH inside).
      destruct (quoted_fields inside r) as [|f fs].
      * repeat constructor. rewrite list_elem_of_singleton. congruence.
      * inversion IH; subst. constructor; [|done].
        rewrite not_elem_of_cons. split; [congruence | done].
Qed.

Lemma tokenize_free line : Forall (free_of ch_quote) (tokenize line).
Proof.
  rewrite tokenize_fields. apply Forall_fmap.
  eapply Forall_impl; [apply quoted_fields_free|].
  intros f Hf. by apply trim_free.
Qed.

Lemma strip_quotes_free s : free_of ch_quote s -> strip_quotes s = s.
Proof.
  unfold free_of, strip_quotes. induction s as [|c r IH]; intros H; simpl; [done|].
  apply not_elem_of_cons in H as [Hc Hr].
  destruct (N.eqb_spec c ch_quote) as [->|_]; [done|]. simpl. by rewrite IH.
Qed.

Lemma nth_free c (l : list jsstr) i :
  Forall (free_of c) l -> free_of c (nth i l []).
Proof.
  intros H. revert i. induction H as [|x l Hx Hl IH]; intros [|i]; simpl;
    try apply not_elem_of_nil; [done | apply IH].
Qed.

(** ** [parseEbirdDate] *)

Lemma months_inv mon mm :
  assoc mon months = Some mm ->
  free_of ch_space mon /\ free_of ch_quote mm /\ exists m1 m2,
    mm = [m1; m2] /\ is_digit m1 = true /\ is_digit m2 = true.
Proof.
  unfold months, free_of. cbn [assoc]. intros H.
  repeat (case_decide; [subst mon; injection H as <-;
    split; [compute_done|]; split; [compute_done|]; by eexists _, _ |]).
  discriminate.
Qed.

Lemma digit_not_white c : is_digit c = true -> is_white c = false.
Proof.
  unfold is_digit, is_white. intros [H1 H2]%andb_prop.
  apply N.leb_le in H1, H2.
  repeat match goal with
         | |- context [?a <=? ?b] => destruct (N.leb_spec a b); try lia
         | |- context [?a =? ?b] => destruct (N.eqb_spec a b); try lia
         end; done.
Qed.

Lemma digits_free c s : is_digit c = false -> all_digits s = true -> free_of c s.
Proof.
  unfold all_digits, free_of. intros Hc Hs Hin.
  rewrite forallb_forall in Hs. apply list_elem_of_In, Hs in Hin. congruence.
Qed.

(** The day and year tokens pass through unchecked: whatever the three
    space-separated tokens are, a recognized month alone decides. *)
Lemma parseEbirdDate_parts s t1 mon mm t3 :
  split ch_space (trim s) = [t1; mon; t3] ->
  assoc mon months = Some mm ->
  parseEbirdDate s = Some (t3 ++ js "-" ++ mm ++ js "-" ++ padStart 2 ch_zero t1).
Proof.
  intros Hparts Hmon. unfold parseEbirdDate. rewrite Hparts. cbn [length nth Nat.eqb negb].
  unfold get. rewrite Hmon.
  destruct (months_inv _ _ Hmon) as (_ & _ & m1 & m2 & -> & _). done.
Qed.

(** A middle token that names an inherited property is truthy as well: the
    text of the inherited value takes the place of the month number. *)
Lemma parseEbirdDate_inherited_month s t1 k text t3 :
  split ch_space (trim s) = [t1; k; t3] ->
  assoc k months = None ->
  assoc k Object_prototype = Some text ->
  parseEbirdDate s = Some (t3 ++ js "-" ++ text ++ js "-" ++ padStart 2 ch_zero t1).
Proof.
  intros Hparts Hown Hproto. unfold parseEbirdDate. rewrite Hparts.
  cbn [length nth Nat.eqb negb]. unfold get. by rewrite Hown, Hproto.
Qed.

Lemma parseEbirdDate_count s :
  length (split ch_space (trim s)) <> 3%nat -> parseEbirdDate s = None.
Proof.
  intros H. unfold parseEbirdDate.
  by destruct (Nat.eqb_spec (length (split ch_space (trim s))) 3).
Qed.

Lemma parseEbirdDate_month s :
  assoc (nth 1 (split ch_space (trim s)) []) months = None ->
  assoc (nth 1 (split ch_space (trim s)) []) Object_prototype = None ->
  parseEbirdDate s = None.
Proof.
  intros Hown Hproto. unfold parseEbirdDate.
  destruct (negb _); [done|]. unfold get. by rewrite Hown, Hproto.
Qed.

(** The trimmed text and its three tokens, for a day and a year of digits. *)
Lemma ebird_date_parts d mon mm y :
  is_day d = true -> is_year y = true -> assoc mon months = Some mm ->
  split ch_space (trim (d ++ js " " ++ mon ++ js " " ++ y)) = [d; mon; y].
Proof.
  intros [Hd Hdl]%andb_prop [Hy Hyl]%andb_prop Hmon.
  destruct (months_inv _ _ Hmon) as (Hfree & _).
  change (js " ") with [ch_space]. cbn [app].
  assert (trim (d ++ ch_space :: mon ++ ch_space :: y) = d ++ ch_space :: mon ++ ch_space :: y) as ->.
  { destruct d as [|c1 d']; [done|].
    destruct y as [|y1 [|y2 [|y3 [|y4 [|]]]]]; try done.
    replace ((c1 :: d') ++ ch_space :: mon ++ ch_space :: [y1; y2; y3; y4])
      with (c1 :: (d' ++ ch_space :: mon ++ ch_space :: [y1; y2; y3]) ++ [y4])
      by (simpl; rewrite <- !app_assoc; simpl; by rewrite <- !app_assoc).
    simpl in Hd, Hy. repeat (apply andb_prop in Hy as [? Hy]).
    apply andb_prop in Hd as [? _].
    apply trim_fixed; by apply digit_not_white. }
  rewrite split_app by (by apply digits_free).
  rewrite split_app by done.
  rewrite split_free by (by apply digits_free). done.
Qed.

Lemma ebird_date_shape d mm y :
  is_day d = true -> is_year y = true ->
  (exists m1 m2, mm = [m1; m2] /\ is_digit m1 = true /\ is_digit m2 = true) ->
  iso_shape (y ++ js "-" ++ mm ++ js "-" ++ padStart 2 ch_zero d) = true.
Proof.
  intros [Hd Hdl]%andb_prop [Hy Hyl]%andb_prop (m1 & m2 & -> & Hm1 & Hm2).
  destruct y as [|y1 [|y2 [|y3 [|y4 [|]]]]]; try done.
  simpl in Hy. repeat (apply andb_prop in Hy as [? Hy]).
  destruct d as [|a [|b [|]]]; try done; simpl in Hd;
    repeat (apply andb_prop in Hd as [? Hd]);
    cbn; unfold all_digits; cbn;
    repeat match goal with H : is_digit _ = true |- _ => rewrite H; clear H end; done.
Qed.

(** ** The outer loop of [parseCSV] *)

Lemma row_step_app acc raw : row_step acc raw = acc ++ row_step [] raw.
Proof.
  unfold row_step. destruct (trim raw); [by rewrite app_nil_r|].
  destruct (9 <=? _)%nat; [|by rewrite app_nil_r].
  destruct (parseEbirdDate _) as [[|]|]; by rewrite ?app_nil_r.
Qed.

Lemma collect_loop lines acc :
  fold_left row_step lines acc = acc ++ concat (row_step [] <$> lines).
Proof.
  revert acc. induction lines as [|raw lines IH]; intros acc; simpl.
  - by rewrite app_nil_r.
  - rewrite IH, (row_step_app acc raw). by rewrite <- app_assoc.
Qed.

Lemma collect_rows csvContent :
  collect csvContent = concat (row_step [] <$> tail (split ch_newline csvContent)).
Proof. unfold collect. by rewrite collect_loop. Qed.

Lemma collect_join hdr rows :
  Forall (free_of ch_newline) (hdr :: rows) ->
  collect (join ch_newline (hdr :: rows)) = concat (row_step [] <$> rows).
Proof.
  intros H. rewrite collect_rows, split_join by done. done.
Qed.

Lemma collect_header hdr rest :
  free_of ch_newline hdr ->
  collect (hdr ++ ch_newline :: rest) = concat (row_step [] <$> split ch_newline rest).
Proof. intros H. by rewrite collect_rows, split_app. Qed.

Lemma row_step_blank raw : trim raw = [] -> row_step [] raw = [].
Proof. intros H. unfold row_step. by rewrite H. Qed.

Lemma row_step_short raw acc :
  (length (tokenize (trim raw)) < 9)%nat -> row_step acc raw = acc.
Proof.
  intros H. unfold row_step. destruct (trim raw) as [|c r]; [done|].
  by destruct (Nat.leb_spec 9 (length (tokenize (c :: r)))); [lia|].
Qed.

Lemma row_step_inv o raw :
  o ∈ row_step [] raw ->
  exists d, (9 <= length (tokenize (trim raw)))%nat
    /\ parseEbirdDate (nth 8 (tokenize (trim raw)) []) = Some d
    /\ o = make_observation d (tokenize (trim raw)).
Proof.
  unfold row_step. destruct (trim raw) as [|c r]; [by intros ?%elem_of_nil|].
  destruct (Nat.leb_spec 9 (length (tokenize (c :: r)))); [|by intros ?%elem_of_nil].
  destruct (parseEbirdDate _) as [[|x d]|]; try by intros ?%elem_of_nil.
  intros ->%list_elem_of_singleton. by exists (x :: d).
Qed.

Lemma elem_of_concat {A} (x : A) (ls : list (list A)) :
  x ∈ concat ls -> exists l, l ∈ ls /\ x ∈ l.
Proof.
  induction ls as [|l ls IH]; simpl; [by intros ?%elem_of_nil|].
  intros [H|H]%elem_of_app.
  - exists l. split; [left | done].
  - destruct (IH H) as (l' & Hl' & Hx). exists l'. split; [by right | done].
Qed.

Lemma collect_inv o csvContent :
  o ∈ collect csvContent ->
  exists raw, raw ∈ tail (split ch_newline csvContent) /\ o ∈ row_step [] raw.
Proof.
  rewrite collect_rows. intros (l & Hl & Ho)%elem_of_concat.
  apply list_elem_of_fmap in Hl as (raw & -> & Hraw). eauto.
Qed.

(** ** [Array.prototype.sort] *)

Section ArraySortFacts.
Context {A : Type} (comparefn : A -> A -> option Z).

Lemma sort_insert_perm x l : sort_insert comparefn x l ≡ₚ x :: l.
Proof.
  induction l as [|y rest IH]; simpl; [done|].
  destruct (sorts_before comparefn y x); [|done].
  rewrite IH. apply Permutation_swap.
Qed.

Lemma Array_sort_perm l : Array_sort comparefn l ≡ₚ l.
Proof.
  induction l as [|x l IH]; simpl; [done|].
  rewrite sort_insert_perm. by constructor.
Qed.

(** When the comparison function orders by an integer key, the result is
    ascending in the key and keeps equal keys in their order. *)
Section Keyed.
Context (key : A -> Z) (valid : A -> Prop).
Hypothesis comparefn_key :
  forall x y, valid x -> valid y -> comparefn x y = Some (key x - key y)%Z.

Lemma sort_insert_sorted x l :
  valid x -> Forall valid l ->
  StronglySorted (fun a b => (key a <= key b)%Z) l ->
  StronglySorted (fun a b => (key a <= key b)%Z) (sort_insert comparefn x l).
Proof.
  intros Hx Hl Hs. induction Hs as [|y rest Hrest IH Hy]; simpl.
  - repeat constructor.
  - inversion Hl as [|? ? Hvy Hvrest]; subst.
    unfold sorts_before. rewrite (comparefn_key y x) by done.
    destruct (Z.ltb_spec (key y - key x) 0).
    + constructor; [by apply IH|].
      rewrite sort_insert_perm. constructor; [lia | done].
    + constructor; [by constructor|].
      constructor; [lia|].
      eapply Forall_impl; [exact Hy|]. intros z Hz. simpl in Hz. lia.
Qed.

Lemma Array_sort_sorted l :
  Forall valid l ->
  StronglySorted (fun a b => (key a <= key b)%Z) (Array_sort comparefn l).
Proof.
  induction 1 as [|x l Hx Hl IH]; simpl; [constructor|].
  apply sort_insert_sorted; [done | | done].
  fold (Array_sort comparefn l). by rewrite Array_sort_perm.
Qed.

Lemma sort_insert_stable (P : A -> Prop) `{!forall a, Decision (P a)} x l :
  valid x -> Forall valid l ->
  (forall a b, P a -> P b -> key a = key b) ->
  StronglySorted (fun a b => (key a <= key b)%Z) l ->
  filter P (sort_insert comparefn x l) = filter P (x :: l).
Proof.
  intros Hx Hl HP Hs. induction Hs as [|y rest Hrest IH Hy]; simpl; [done|].
  inversion Hl as [|? ? Hvy Hvrest]; subst.
  unfold sorts_before. rewrite (comparefn_key y x) by done.
  destruct (Z.ltb_spec (key y - key x) 0) as [Hlt|Hge]; [|done].
  rewrite !filter_cons. rewrite IH by done. rewrite filter_cons.
  destruct (decide (P y)) as [Py|_]; [|done].
  destruct (decide (P x)) as [Px|_]; [|done].
  specialize (HP _ _ Px Py). lia.
Qed.

Lemma Array_sort_stable (P : A -> Prop) `{!forall a, Decision (P a)} l :
  Forall valid l ->
  (forall a b, P a -> P b -> key a = key b) ->
  filter P (Array_sort comparefn l) = filter P l.
Proof.
  intros Hl HP. induction Hl as [|x l Hx Hl IH]; simpl; [done|].
  rewrite sort_insert_stable; try done.
  - rewrite !filter_cons. fold (Array_sort comparefn l). by rewrite IH.
  - fold (Array_sort comparefn l). by rewrite Array_sort_perm.
  - by apply Array_sort_sorted.
Qed.

End Keyed.
End ArraySortFacts.

(** ** Calendar dates and their time values *)

Section DateFacts.
Local Open Scope Z_scope.

Lemma DayFromYear_step y :
  Date.DayFromYear (y + 1)
  = Date.DayFromYear y + (if Date.InLeapYear y then 366 else 365).
Proof.
  unfold Date.DayFromYear, Date.InLeapYear.
  destruct (Z.eqb_spec (y mod 4) 0), (Z.eqb_spec (y mod 100) 0),
    (Z.eqb_spec (y mod 400) 0); cbn [andb orb negb];
    Z.div_mod_to_equations; lia.
Qed.

Lemma DayFromYear_mono y y' : y <= y' -> Date.DayFromYear y <= Date.DayFromYear y'.
Proof. unfold Date.DayFromYear. intros H. Z.div_mod_to_equations. lia. Qed.

Lemma month_cases m :
  1 <= m <= 12 ->
  m = 1 \/ m = 2 \/ m = 3 \/ m = 4 \/ m = 5 \/ m = 6 \/ m = 7 \/ m = 8 \/ m = 9
  \/ m = 10 \/ m = 11 \/ m = 12.
Proof. lia. Qed.

Lemma day_of_year_bounds y m d :
  Date.valid_fields y m d = true ->
  1 <= Date.DaysBeforeMonth y m + d <= (if Date.InLeapYear y then 366 else 365).
Proof.
  unfold Date.valid_fields. rewrite !andb_true_iff, !Z.leb_le.
  intros [[[Hm1 Hm2] Hd1] Hd2].
  destruct (month_cases m) as [->|[->|[->|[->|[->|[->|[->|[->|[->|[->|[->| ->]]]]]]]]]]];
    [lia|..]; unfold Date.DaysBeforeMonth, Date.DaysInMonth in *;
    destruct (Date.InLeapYear y); cbn in *; lia.
Qed.

Lemma day_of_year_month y m d m' d' :
  Date.valid_fields y m d = true -> Date.valid_fields y m' d' = true ->
  m < m' -> Date.DaysBeforeMonth y m + d < Date.DaysBeforeMonth y m' + d'.
Proof.
  unfold Date.valid_fields. rewrite !andb_true_iff, !Z.leb_le.
  intros [[[Hm1 Hm2] Hd1] Hd2] [[[Hm1' Hm2'] Hd1'] Hd2'] Hlt.
  destruct (month_cases m) as [->|[->|[->|[->|[->|[->|[->|[->|[->|[->|[->| ->]]]]]]]]]]];
    [lia|..];
    destruct (month_cases m') as [->|[->|[->|[->|[->|[->|[->|[->|[->|[->|[->| ->]]]]]]]]]]];
    [lia|..]; try lia;
    unfold Date.DaysBeforeMonth, Date.DaysInMonth in *;
    destruct (Date.InLeapYear y); cbn in *; lia.
Qed.

(** Earlier in the calendar is earlier in days since the epoch. *)
Lemma MakeDay_lex y m d y' m' d' :
  Date.valid_fields y m d = true -> Date.valid_fields y' m' d' = true ->
  y < y' \/ (y = y' /\ (m < m' \/ (m = m' /\ d < d'))) ->
  Date.MakeDay y m d < Date.MakeDay y' m' d'.
Proof.
  intros Hv Hv' Hlex. unfold Date.MakeDay.
  destruct Hlex as [Hy|[<- [Hm|[<- Hd]]]].
  - pose proof (day_of_year_bounds _ _ _ Hv).
    pose proof (day_of_year_bounds _ _ _ Hv').
    pose proof (DayFromYear_step y).
    pose proof (DayFromYear_mono (y + 1) y' ltac:(lia)).
    destruct (Date.InLeapYear y), (Date.InLeapYear y'); lia.
  - pose proof (day_of_year_month _ _ _ _ _ Hv Hv' Hm). lia.
  - lia.
Qed.


(** A calendar date, character by character. *)
Lemma calendar_date_inv s :
  calendar_date s = true ->
  exists y1 y2 y3 y4 m1 m2 d1 d2 : N,
    s = [y1; y2; y3; y4; ch_hyphen; m1; m2; ch_hyphen; d1; d2]
    /\ Forall (fun c => 0 <= dig c <= 9) [y1; y2; y3; y4; m1; m2; d1; d2]
    /\ Date.calendar_fields s
       = Some (1000 * dig y1 + 100 * dig y2 + 10 * dig y3 + dig y4,
               10 * dig m1 + dig m2, 10 * dig d1 + dig d2)
    /\ Date.valid_fields (1000 * dig y1 + 100 * dig y2 + 10 * dig y3 + dig y4)
         (10 * dig m1 + dig m2) (10 * dig d1 + dig d2) = true.
Proof.
  unfold calendar_date. intros [Hshape Hvalid]%andb_prop.
  destruct s as [|y1 [|y2 [|y3 [|y4 [|h1 [|m1 [|m2 [|h2 [|d1 [|d2 [|]]]]]]]]]]];
    try discriminate.
  unfold iso_shape, all_digits in Hshape. cbn [forallb] in Hshape.
  rewrite !andb_true_iff in Hshape.
  destruct Hshape as [[(Hy1 & Hy2 & Hy3 & Hy4 & Hm1 & Hm2 & Hd1 & Hd2 & _) Hh1] Hh2].
  apply N.eqb_eq in Hh1, Hh2. subst h1 h2.
  assert (forall c, is_digit c = true ->
            Date.digit c = Some (dig c) /\ 0 <= dig c <= 9) as Hdig.
  { intros c Hc. unfold Date.digit, dig. unfold is_digit in Hc. rewrite Hc.
    apply andb_prop in Hc as [?%N.leb_le ?%N.leb_le]. split; [done | lia]. }
  assert (Date.calendar_fields [y1; y2; y3; y4; ch_hyphen; m1; m2; ch_hyphen; d1; d2]
          = Some (1000 * dig y1 + 100 * dig y2 + 10 * dig y3 + dig y4,
                  10 * dig m1 + dig m2, 10 * dig d1 + dig d2)) as Hfields.
  { unfold Date.calendar_fields, Date.number. rewrite N.eqb_refl. cbn [andb Date.number_from].
    destruct (Hdig _ Hy1) as [-> _], (Hdig _ Hy2) as [-> _], (Hdig _ Hy3) as [-> _],
      (Hdig _ Hy4) as [-> _], (Hdig _ Hm1) as [-> _], (Hdig _ Hm2) as [-> _],
      (Hdig _ Hd1) as [-> _], (Hdig _ Hd2) as [-> _].
    cbn [mbind option_bind]. repeat f_equal; lia. }
  rewrite Hfields in Hvalid.
  exists y1, y2, y3, y4, m1, m2, d1, d2. split; [done|]. split; [|done].
  repeat (constructor; [by apply Hdig|]). constructor.
Qed.

Lemma calendar_date_parse other s y m d :
  calendar_date s = true -> Date.calendar_fields s = Some (y, m, d) ->
  Date.parse other s = Some (Date.MakeDay y m d * Date.msPerDay).
Proof.
  intros Hs Hf. destruct (calendar_date_inv s Hs) as
    (y1 & y2 & y3 & y4 & m1 & m2 & d1 & d2 & -> & Hdig & Hf' & Hv).
  rewrite Hf in Hf'. injection Hf' as -> -> ->.
  unfold Date.parse. rewrite Hf, Hv. unfold Date.TimeClip.
  pose proof (day_of_year_bounds _ _ _ Hv) as Hday.
  repeat match goal with H : Forall _ (_ :: _) |- _ => inversion H; clear H; subst end.
  set (y := 1000 * dig y1 + 100 * dig y2 + 10 * dig y3 + dig y4) in *.
  pose proof (DayFromYear_mono 0 y ltac:(lia)) as Hlo.
  pose proof (DayFromYear_mono y 9999 ltac:(lia)) as Hhi.
  change (Date.DayFromYear 0) with (-719528) in Hlo.
  change (Date.DayFromYear 9999) with 2932532 in Hhi.
  unfold Date.MakeDay, Date.msPerDay.
  destruct (Z.leb_spec (Z.abs ((Date.DayFromYear y + Date.DaysBeforeMonth y (10 * dig m1 + dig m2)
             + (10 * dig d1 + dig d2) - 1) * 86400000)) 8640000000000000); [done|].
  destruct (Date.InLeapYear y); lia.
Qed.

(** On calendar dates the order of the strings is the order of the days. *)
Lemma calendar_date_ltb s t y m d y' m' d' :
  calendar_date s = true -> calendar_date t = true ->
  Date.calendar_fields s = Some (y, m, d) ->
  Date.calendar_fields t = Some (y', m', d') ->
  str_ltb s t = true -> Date.MakeDay y m d < Date.MakeDay y' m' d'.
Proof.
  intros Hs Ht Hfs Hft Hlt.
  destruct (calendar_date_inv s Hs) as
    (y1 & y2 & y3 & y4 & m1 & m2 & d1 & d2 & -> & Hdig & Hf & Hv).
  destruct (calendar_date_inv t Ht) as
    (z1 & z2 & z3 & z4 & n1 & n2 & e1 & e2 & -> & Hdig' & Hf' & Hv').
  rewrite Hfs in Hf. injection Hf as -> -> ->.
  rewrite Hft in Hf'. injection Hf' as -> -> ->.
  apply MakeDay_lex; [done..|].
  repeat match goal with H : Forall _ (_ :: _) |- _ => inversion H; clear H; subst end.
  cbn [str_ltb] in Hlt.
  repeat (rewrite orb_true_iff in Hlt || rewrite andb_true_iff in Hlt).
  rewrite ?N.ltb_lt, ?N.eqb_eq in Hlt.
  unfold dig in *. unfold ch_hyphen in *. lia.
Qed.
End DateFacts.

(** ** The date normalizer: what it accepts and what it rejects *)

(** C10: only the number of tokens and the month are checked.  Whenever the
    trimmed text splits at single spaces into three tokens of which the
    middle one is a recognized month, the result is the third token, the
    month number and the first token padded with zeros to two characters,
    whatever the first and third tokens contain. *)
Theorem parseEbirdDate_unvalidated (s t1 mon mm t3 : jsstr) :
  split ch_space (trim s) = [t1; mon; t3] ->
  assoc mon months = Some mm ->
  parseEbirdDate s = Some (t3 ++ js "-" ++ mm ++ js "-" ++ padStart 2 ch_zero t1).
Proof.
  intros Hparts Hmon. unfold parseEbirdDate.
  rewrite Hparts. cbn [length nth Nat.eqb negb].
  unfold get. rewrite Hmon.
  destruct (months_inv mon mm Hmon) as (_ & _ & m1 & m2 & -> & _).
  reflexivity.
Qed.

(** C2, as the code has it: a day of one or two digits, a recognized month
    and a four-digit year, separated by single spaces, normalize to
    [YYYY-MM-DD] with the day padded; a text that, once trimmed, does not
    split at single spaces into exactly three parts yields null, and so
    does one whose middle part is neither a recognized month nor the name
    of a property inherited from [Object.prototype]. *)
Theorem parseEbirdDate_contract :
  (forall d mon mm y,
     is_day d = true -> is_year y = true -> assoc mon months = Some mm ->
     parseEbirdDate (d ++ js " " ++ mon ++ js " " ++ y)
     = Some (y ++ js "-" ++ mm ++ js "-" ++ padStart 2 ch_zero d)
     /\ iso_shape (y ++ js "-" ++ mm ++ js "-" ++ padStart 2 ch_zero d) = true)
  /\ (forall s,
        length (split ch_space (trim s)) <> 3%nat -> parseEbirdDate s = None)
  /\ (forall s,
        assoc (nth 1 (split ch_space (trim s)) []) months = None ->
        assoc (nth 1 (split ch_space (trim s)) []) Object_prototype = None ->
        parseEbirdDate s = None).
Proof.
  split; [|split].
  - intros d mon mm y Hd Hy Hmon. split.
    + eapply parseEbirdDate_parts; [|done]. by eapply ebird_date_parts.
    + apply ebird_date_shape; [done..|]. by destruct (months_inv _ _ Hmon) as (_ & _ & ?).
  - apply parseEbirdDate_count.
  - apply parseEbirdDate_month.
Qed.

(** The claim C2 as stated fails twice: a text of four parts separated by
    white space is normalized when the separator inside its first token is
    a tab, and a month token that names an inherited property is not
    rejected. *)
Lemma parseEbirdDate_null_claim_fails :
  (white_parts tab_date = [js "5"; js "6"; js "Jan"; js "2024"]
   /\ parseEbirdDate tab_date = Some (js "2024-01-5" ++ 9 :: js "6"))
  /\ (assoc (js "constructor") months = None
      /\ parseEbirdDate constructor_date
         = Some (js "2024-function Object() { [native code] }-05")).
Proof. repeat split; vm_compute; reflexivity. Qed.

(** ** The tokenizer *)

Lemma trimEnd_idem s : trimEnd (trimEnd s) = trimEnd s.
Proof.
  induction s as [|c r IH]; [done|]. cbn [trimEnd].
  destruct (trimEnd r) as [|y r'] eqn:E.
  - destruct (is_white c) eqn:Hc; [done|]. cbn. by rewrite Hc.
  - change (trimEnd (c :: y :: r'))
      with (match trimEnd (y :: r') with
            | [] => if is_white c then [] else [c]
            | r'' => c :: r''
            end).
    by rewrite IH.
Qed.

Lemma trimStart_head s :
  trimStart s = [] \/ exists c r, trimStart s = c :: r /\ is_white c = false.
Proof.
  induction s as [|c r IH]; simpl; [by left|].
  destruct (is_white c) eqn:Hc; [done|]. right. eauto.
Qed.

Lemma trimEnd_head c r :
  is_white c = false -> exists r', trimEnd (c :: r) = c :: r'.
Proof.
  intros Hc. simpl. destruct (trimEnd r); [|eauto]. rewrite Hc. eauto.
Qed.

Lemma trim_idem s : trim (trim s) = trim s.
Proof.
  unfold trim. destruct (trimStart_head s) as [->|(c & r & -> & Hc)]; [done|].
  destruct (trimEnd_head c r Hc) as [r' Hr']. rewrite Hr' at 1.
  cbn [trimStart]. rewrite Hc, <- Hr'. apply trimEnd_idem.
Qed.

(** C5: the fields of a line are those between the commas that no open
    quote protects, without the quote characters and each trimmed; the line
    [A,"B, C",D] has the three fields [A], [B, C] and [D]. *)
Theorem tokenize_quoted_commas :
  (forall line, tokenize line = trim <$> quoted_fields false line)
  /\ (forall line, Forall (fun field => trim field = field) (tokenize line))
  /\ tokenize quoted_line = [js "A"; js "B, C"; js "D"].
Proof.
  split; [apply tokenize_fields|]. split; [|reflexivity].
  intros line. rewrite tokenize_fields. apply Forall_fmap, Forall_forall.
  intros f _. apply trim_idem.
Qed.

Lemma split_elem sep s :
  Forall (fun part => forall c, c ∈ part -> c ∈ s) (split sep s).
Proof.
  induction s as [|x r IH]; simpl; [constructor; [done | constructor]|].
  assert (Forall (fun part => forall c, c ∈ part -> c ∈ x :: r) (split sep r)) as IH'.
  { eapply Forall_impl; [exact IH|]. intros part H c Hc. right. by apply H. }
  destruct (x =? sep).
  - constructor; [by intros c ?%elem_of_nil | done].
  - destruct (split sep r) as [|f fs].
    + constructor; [|constructor]. intros c ->%list_elem_of_singleton. by left.
    + inversion IH' as [|? ? Hf Hfs]; subst. constructor; [|done].
      intros c [->|Hc]%elem_of_cons; [by left | by apply Hf].
Qed.

Lemma Object_prototype_free k text :
  assoc k Object_prototype = Some text -> free_of ch_quote text.
Proof.
  unfold Object_prototype, free_of. cbn [assoc]. intros H.
  repeat (case_decide; [injection H as <-; compute_done|]).
  discriminate.
Qed.

Lemma date_text_free year month day :
  free_of ch_quote year -> free_of ch_quote month -> free_of ch_quote day ->
  free_of ch_quote (year ++ js "-" ++ month ++ js "-" ++ padStart 2 ch_zero day).
Proof.
  unfold free_of, padStart. change (js "-") with [ch_hyphen].
  intros Hy Hm Hd Hin.
  apply elem_of_app in Hin as [Hin|Hin]; [done|].
  apply elem_of_cons in Hin as [Hin|Hin]; [done|].
  apply elem_of_app in Hin as [Hin|Hin]; [done|].
  apply elem_of_cons in Hin as [Hin|Hin]; [done|].
  apply elem_of_app in Hin as [Hin|Hin]; [|done].
  by apply elem_of_replicate_inv in Hin.
Qed.

Lemma parseEbirdDate_free s d :
  free_of ch_quote s -> parseEbirdDate s = Some d -> free_of ch_quote d.
Proof.
  intros Hs. unfold parseEbirdDate.
  destruct (negb (Nat.eqb _ 3)); [done|].
  assert (Forall (free_of ch_quote) (split ch_space (trim s))) as Hparts.
  { eapply Forall_impl; [apply split_elem|].
    intros part H Hin. by apply Hs, trim_elem, H. }
  set (parts := split ch_space (trim s)) in *.
  pose proof (nth_free ch_quote parts 0 Hparts) as H0.
  pose proof (nth_free ch_quote parts 2 Hparts) as H2.
  unfold get.
  destruct (assoc (nth 1 parts []) months) as [mm|] eqn:Hown.
  - destruct (months_inv _ _ Hown) as (_ & Hmm & m1 & m2 & -> & _).
    cbn [truthy length Nat.eqb negb ToString]. intros Heq. injection Heq as <-.
    by apply (date_text_free (nth 2 parts []) [m1; m2] (nth 0 parts [])).
  - destruct (assoc (nth 1 parts []) Object_prototype) as [text|] eqn:Hproto; [|done].
    cbn [truthy negb ToString]. intros Heq. injection Heq as <-.
    apply (date_text_free (nth 2 parts []) text (nth 0 parts [])); [done | | done].
    by eapply Object_prototype_free.
Qed.

(** ** [parseCSV] *)

Lemma StronglySorted_valid {A} (R R' : A -> A -> Prop) (valid : A -> Prop) l :
  Forall valid l ->
  (forall a b, valid a -> valid b -> R a b -> R' a b) ->
  StronglySorted R l -> StronglySorted R' l.
Proof.
  intros Hl HR Hs. induction Hs as [|x l Hs IH Hx]; [constructor|].
  inversion Hl as [|? ? Hvx Hvl]; subst. constructor; [by apply IH|].
  rewrite Forall_forall in *. intros y Hy. apply HR; auto.
Qed.

Lemma collect_without hdr before row after :
  Forall (free_of ch_newline) (hdr :: before ++ row :: after) ->
  row_step [] row = [] ->
  collect (join ch_newline (hdr :: before ++ row :: after))
  = collect (join ch_newline (hdr :: before ++ after)).
Proof.
  intros Hfree Hrow.
  assert (Forall (free_of ch_newline) (hdr :: before ++ after)) as Hfree'.
  { inversion Hfree as [|? ? Hh Hrest]; subst. constructor; [done|].
    apply Forall_app in Hrest as [Hb Ha]. inversion Ha; subst.
    by apply Forall_app. }
  rewrite !collect_join by done.
  rewrite !fmap_app, !concat_app, fmap_cons. simpl. by rewrite Hrow.
Qed.

Lemma well_formed_row_step row o : well_formed_row row o -> row_step [] row = [o].
Proof.
  intros (_ & Hlen & d & mon & mm & y & Hd & Hy & Hmon & Hcol & ->).
  unfold row_step. destruct (trim row) as [|c r] eqn:Htrim.
  { simpl in Hlen. lia. }
  destruct (Nat.leb_spec 9 (length (tokenize (c :: r)))); [|lia].
  rewrite Hcol.
  rewrite (parseEbirdDate_parts _ d mon mm y) by (by eapply ebird_date_parts || done).
  destruct y as [|y1 y']; [done|]. cbn [app].
  unfold make_observation. simpl. f_equal. f_equal.
  apply strip_quotes_free, nth_free, tokenize_free.
Qed.

Lemma well_formed_rows_collect rows expected :
  Forall2 well_formed_row rows expected ->
  concat (row_step [] <$> rows) = expected.
Proof.
  induction 1 as [|row o rows expected Hrow _ IH]; [done|].
  rewrite fmap_cons. simpl. by rewrite (well_formed_row_step row o), IH.
Qed.

Section ParseCSVFacts.

Variable Date_parse_other : jsstr -> option Z.

Lemma parseCSV_perm csvContent :
  parseCSV Date_parse_other csvContent ≡ₚ collect csvContent.
Proof. apply Array_sort_perm. Qed.

Lemma parseCSV_collect_nil csvContent :
  collect csvContent = [] -> parseCSV Date_parse_other csvContent = [].
Proof. intros H. unfold parseCSV. by rewrite H. Qed.

(** C8: the first line never matters, a line that is empty once trimmed
    contributes nothing, and the empty text and a lone header line give the
    empty sequence. *)
Theorem parseCSV_header_and_blank_lines :
  (forall h1 h2 rest,
     free_of ch_newline h1 -> free_of ch_newline h2 ->
     parseCSV Date_parse_other (h1 ++ ch_newline :: rest)
     = parseCSV Date_parse_other (h2 ++ ch_newline :: rest))
  /\ (forall hdr before blank after,
        Forall (free_of ch_newline) (hdr :: before ++ blank :: after) ->
        trim blank = [] ->
        parseCSV Date_parse_other (join ch_newline (hdr :: before ++ blank :: after))
        = parseCSV Date_parse_other (join ch_newline (hdr :: before ++ after)))
  /\ parseCSV Date_parse_other [] = []
  /\ (forall hdr, free_of ch_newline hdr -> parseCSV Date_parse_other hdr = []).
Proof.
  split; [|split; [|split]].
  - intros h1 h2 rest H1 H2. unfold parseCSV. by rewrite !collect_header.
  - intros hdr before blank after Hfree Hblank. unfold parseCSV.
    rewrite collect_without; [done | done | by apply row_step_blank].
  - reflexivity.
  - intros hdr Hfree. apply parseCSV_collect_nil.
    by rewrite collect_rows, split_free.
Qed.

(** C6: a row of fewer than nine columns leaves the observations as they
    were, so the result is the one of the text without that row. *)
Theorem parseCSV_short_rows_dropped :
  (forall acc row,
     (length (tokenize (trim row)) < 9)%nat -> row_step acc row = acc)
  /\ (forall hdr before row after,
        Forall (free_of ch_newline) (hdr :: before ++ row :: after) ->
        (length (tokenize (trim row)) < 9)%nat ->
        parseCSV Date_parse_other (join ch_newline (hdr :: before ++ row :: after))
        = parseCSV Date_parse_other (join ch_newline (hdr :: before ++ after))).
Proof.
  split.
  - intros acc row H. by apply row_step_short.
  - intros hdr before row after Hfree Hshort. unfold parseCSV.
    rewrite collect_without; [done | done | by apply row_step_short].
Qed.

(** C4: a header line followed by N well-formed rows gives exactly N
    observations, the records of the rows: in the order of the rows before
    the sort, and the same records after it. *)
Theorem parseCSV_well_formed_rows hdr rows expected :
  free_of ch_newline hdr ->
  Forall2 well_formed_row rows expected ->
  collect (join ch_newline (hdr :: rows)) = expected
  /\ parseCSV Date_parse_other (join ch_newline (hdr :: rows)) ≡ₚ expected
  /\ length (parseCSV Date_parse_other (join ch_newline (hdr :: rows))) = length rows.
Proof.
  intros Hhdr Hrows.
  assert (collect (join ch_newline (hdr :: rows)) = expected) as Hcollect.
  { rewrite collect_join; [by apply well_formed_rows_collect|].
    constructor; [done|]. clear Hhdr.
    induction Hrows as [|row o rows expected Hrow _ IH]; constructor; [|done].
    by destruct Hrow. }
  split; [done|]. split.
  - by rewrite parseCSV_perm, Hcollect.
  - rewrite parseCSV_perm, Hcollect. symmetry. by eapply Forall2_length.
Qed.

(** C9: no field of the tokenizer contains a quote character, stripping
    the quotes of a column changes nothing, and no field of an observation
    of the result contains one. *)
Theorem tokenizer_drops_quotes :
  (forall line, Forall (free_of ch_quote) (tokenize line))
  /\ (forall line i,
        strip_quotes (nth i (tokenize line) []) = nth i (tokenize line) [])
  /\ (forall csvContent o,
        o ∈ parseCSV Date_parse_other csvContent ->
        free_of ch_quote (date o) /\ free_of ch_quote (sciName o)
        /\ free_of ch_quote (common o) /\ free_of ch_quote (location o)
        /\ free_of ch_quote (region o)).
Proof.
  split; [apply tokenize_free|]. split.
  - intros line i. apply strip_quotes_free, nth_free, tokenize_free.
  - intros csvContent o Ho. rewrite parseCSV_perm in Ho.
    apply collect_inv in Ho as (raw & _ & Ho).
    apply row_step_inv in Ho as (d & _ & Hd & ->).
    pose proof (tokenize_free (trim raw)) as Hcols.
    unfold make_observation. cbn [date sciName common location region].
    rewrite strip_quotes_free by (by apply nth_free).
    repeat split; try (by apply nth_free).
    eapply parseEbirdDate_free; [|exact Hd]. by apply nth_free.
Qed.

Lemma by_date_time a b :
  calendar_date (date a) = true -> calendar_date (date b) = true ->
  by_date Date_parse_other a b = Some (time_of a - time_of b)%Z.
Proof.
  intros Ha Hb. unfold by_date, time_of.
  destruct (calendar_date_inv _ Ha) as (? & ? & ? & ? & ? & ? & ? & ? & _ & _ & Hfa & _).
  destruct (calendar_date_inv _ Hb) as (? & ? & ? & ? & ? & ? & ? & ? & _ & _ & Hfb & _).
  rewrite (calendar_date_parse _ _ _ _ _ Ha Hfa), (calendar_date_parse _ _ _ _ _ Hb Hfb).
  by rewrite Hfa, Hfb.
Qed.

Lemma time_of_leb a b :
  calendar_date (date a) = true -> calendar_date (date b) = true ->
  (time_of a <= time_of b)%Z -> str_leb (date a) (date b) = true.
Proof.
  intros Ha Hb Hle. unfold str_leb.
  destruct (str_ltb (date b) (date a)) eqn:Hlt; [|done]. exfalso.
  destruct (calendar_date_inv _ Ha) as (? & ? & ? & ? & ? & ? & ? & ? & _ & _ & Hfa & _).
  destruct (calendar_date_inv _ Hb) as (? & ? & ? & ? & ? & ? & ? & ? & _ & _ & Hfb & _).
  pose proof (calendar_date_ltb _ _ _ _ _ _ _ _ Hb Ha Hfb Hfa Hlt) as Hdays.
  unfold time_of in Hle. rewrite Hfa, Hfb in Hle. unfold Date.msPerDay in Hle. lia.
Qed.

(** C1, as the code has it: when every date that [parseCSV] emits is a
    calendar date [YYYY-MM-DD], the result is ascending in the date string
    and the records of one date keep the order of their rows. *)
Theorem parseCSV_sorted_by_calendar_date csvContent :
  Forall (fun o => calendar_date (date o) = true) (collect csvContent) ->
  date_sorted (parseCSV Date_parse_other csvContent)
  /\ forall d, with_date d (parseCSV Date_parse_other csvContent)
               = with_date d (collect csvContent).
Proof.
  intros Hdates. split.
  - unfold date_sorted, parseCSV.
    eapply (StronglySorted_valid _ _ (fun o => calendar_date (date o) = true)).
    + by rewrite Array_sort_perm.
    + apply time_of_leb.
    + eapply Array_sort_sorted; [apply by_date_time | done].
  - intros d. unfold with_date, parseCSV.
    eapply Array_sort_stable; [apply by_date_time | done |].
    intros a b Ha Hb. unfold time_of. by rewrite Ha, Hb.
Qed.

End ParseCSVFacts.

(** ** The prior profile and the merge *)

Section ProfileFacts.

Variable JSON_parse : jsstr -> option json.

(** C7: reading the prior export always returns a value; when the file is
    missing or unreadable, or its text is not JSON, the value is the empty
    object, and the merge goes on from it to a profile of [lastSync] alone. *)
Theorem getExistingProfile_never_fails (file : option jsstr) :
  (exists p, getExistingProfile JSON_parse file = Normal p)
  /\ (file = None -> getExistingProfile JSON_parse file = Normal (JObject ∅))
  /\ (forall text,
        file = Some text -> JSON_parse text = None ->
        getExistingProfile JSON_parse file = Normal (JObject ∅))
  /\ (forall obs now1 now2,
        profile (merge (JObject ∅) obs now1 now2)
        = {[ js "lastSync" := JString now1 ]}).
Proof.
  split; [|split; [|split]].
  - unfold getExistingProfile, try_catch.
    destruct (andThen _ _); eauto.
  - by intros ->.
  - intros text -> Hparse. unfold getExistingProfile, JSON_parse_call. simpl.
    by rewrite Hparse.
  - intros obs now1 now2. unfold merge. simpl. apply insert_empty.
Qed.

End ProfileFacts.

(** C3: the profile written is the prior profile with [lastSync] set to
    the time of the import; every other key keeps its value, present or
    absent, and no key besides [lastSync] is added. *)
Theorem merge_preserves_profile (props : gmap jsstr json)
    (obs : list observation) (now1 now2 : jsstr) :
  (forall k, k <> js "lastSync" ->
     profile (merge (JObject props) obs now1 now2) !! k = props !! k)
  /\ profile (merge (JObject props) obs now1 now2) !! js "lastSync"
     = Some (JString now1)
  /\ dom (profile (merge (JObject props) obs now1 now2))
     = {[ js "lastSync" ]} ∪ dom props.
Proof.
  unfold merge. cbn [profile spread]. split; [|split].
  - intros k Hk. by rewrite lookup_insert_ne.
  - apply lookup_insert_eq.
  - apply dom_insert_L.
Qed.

(** ** The theorems at concrete inputs *)

Lemma parseEbirdDate_unvalidated_witness :
  parseEbirdDate (js "x Jan 20244") = Some (js "20244-01-0x").
Proof.
  exact (parseEbirdDate_unvalidated (js "x Jan 20244")
           (js "x") (js "Jan") (js "01") (js "20244") eq_refl eq_refl).
Defined.

Lemma parseEbirdDate_contract_witness :
  parseEbirdDate (js "5 Jan 2024") = Some (js "2024-01-05")
  /\ parseEbirdDate (js "15 Dec 2023") = Some (js "2023-12-15")
  /\ parseEbirdDate (js "2024") = None
  /\ parseEbirdDate (js "5 Foo 2024") = None.
Proof.
  destruct parseEbirdDate_contract as (Hvalid & Hcount & Hmonth).
  split; [|split; [|split]].
  - exact (proj1 (Hvalid (js "5") (js "Jan") (js "01") (js "2024")
                    eq_refl eq_refl eq_refl)).
  - exact (proj1 (Hvalid (js "15") (js "Dec") (js "12") (js "2023")
                    eq_refl eq_refl eq_refl)).
  - apply (Hcount (js "2024")). vm_compute. lia.
  - apply (Hmonth (js "5 Foo 2024")); reflexivity.
Defined.

Lemma parseCSV_header_and_blank_lines_witness :
  parseCSV no_other_dates
    (join ch_newline (header_line :: [robin_row (js "Fresh Pond") (js "5 Jan 2024")]
                      ++ js "  " :: []))
  = parseCSV no_other_dates
      (join ch_newline (js "" :: [robin_row (js "Fresh Pond") (js "5 Jan 2024")] ++ []))
  /\ parseCSV no_other_dates header_line = [].
Proof.
  destruct (parseCSV_header_and_blank_lines no_other_dates)
    as (Hhdr & Hblank & _ & Hlone).
  split.
  - rewrite (Hblank header_line [robin_row (js "Fresh Pond") (js "5 Jan 2024")]
               (js "  ") []) by (compute_done || reflexivity).
    apply (Hhdr header_line (js "")); compute_done.
  - apply Hlone. compute_done.
Defined.

Lemma parseCSV_short_rows_dropped_witness :
  parseCSV no_other_dates
    (join ch_newline (header_line :: [robin_row (js "Fresh Pond") (js "5 Jan 2024")]
                      ++ short_row :: []))
  = parseCSV no_other_dates
      (join ch_newline (header_line :: [robin_row (js "Fresh Pond") (js "5 Jan 2024")] ++ [])).
Proof.
  apply (proj2 (parseCSV_short_rows_dropped no_other_dates)).
  - compute_done.
  - vm_compute. lia.
Defined.

Lemma three_rows_well_formed :
  Forall2 well_formed_row three_rows
    [ robin (js "Fresh Pond") (js "2024-03-02");
      robin (js "Mount Auburn") (js "2024-01-01");
      robin (js "Boston Common") (js "2024-01-05") ].
Proof.
  repeat constructor; try compute_done; try (vm_compute; lia).
  - by exists (js "2"), (js "Mar"), (js "03"), (js "2024").
  - by exists (js "1"), (js "Jan"), (js "01"), (js "2024").
  - by exists (js "5"), (js "Jan"), (js "01"), (js "2024").
Defined.

Lemma parseCSV_well_formed_rows_witness :
  length (parseCSV no_other_dates (join ch_newline (header_line :: three_rows))) = 3%nat.
Proof.
  apply (parseCSV_well_formed_rows no_other_dates header_line three_rows _
           ltac:(compute_done) three_rows_well_formed).
Defined.

Lemma tokenizer_drops_quotes_witness :
  Forall (free_of ch_quote) (tokenize quoted_line).
Proof. apply (proj1 (tokenizer_drops_quotes no_other_dates)). Defined.

Lemma parseCSV_sorted_by_calendar_date_witness :
  date_sorted (parseCSV no_other_dates (join ch_newline (header_line :: three_rows)))
  /\ date <$> parseCSV no_other_dates (join ch_newline (header_line :: three_rows))
     = [js "2024-01-01"; js "2024-01-05"; js "2024-03-02"].
Proof.
  split; [|reflexivity].
  apply (parseCSV_sorted_by_calendar_date no_other_dates
           (join ch_newline (header_line :: three_rows))).
  compute_done.
Defined.

(** Whatever an implementation does with other date texts, the two dates of
    [expanded_year_csv] are in the format: the year 2023 sorts before the
    year +002024, against the order of the strings. *)
Lemma expanded_year_result other :
  date <$> parseCSV other expanded_year_csv
  = [js "2023-01-01"; js "+002024-01-05"].
Proof. reflexivity. Qed.

(** The claim C1 as stated fails: on [expanded_year_csv] the result is not
    ascending in the date string, under any implementation of the dates
    outside the format. *)
Lemma parseCSV_expanded_year_unsorted :
  ~ exists other, date_sorted (parseCSV other expanded_year_csv).
Proof.
  intros [other Hsorted]. unfold date_sorted in Hsorted.
  pose proof (expanded_year_result other) as Hdates.
  destruct (parseCSV other expanded_year_csv) as [|a [|b [|]]]; try discriminate.
  injection Hdates as Ha Hb.
  inversion Hsorted as [|? ? _ Hall]; subst.
  inversion Hall as [|? ? Hab _]; subst.
  rewrite Ha, Hb in Hab. discriminate.
Qed.

Lemma getExistingProfile_never_fails_witness :
  getExistingProfile parse_template None = Normal (JObject ∅)
  /\ getExistingProfile parse_template (Some (js "{ not json")) = Normal (JObject ∅)
  /\ getExistingProfile parse_template (Some template_text)
     = Normal (JObject template_profile).
Proof.
  split; [|split].
  - apply (getExistingProfile_never_fails parse_template None). reflexivity.
  - apply (proj1 (proj2 (proj2 (getExistingProfile_never_fails parse_template
             (Some (js "{ not json"))))) (js "{ not json")); reflexivity.
  - reflexivity.
Defined.

Lemma merge_preserves_profile_witness :
  profile (merge (JObject template_profile) [] (js "2024-01-05T00:00:00.000Z")
             (js "2024-01-05T00:00:00.001Z")) !! js "name"
  = Some (JString (js "Ada")).
Proof.
  rewrite (proj1 (merge_preserves_profile template_profile []
             (js "2024-01-05T00:00:00.000Z") (js "2024-01-05T00:00:00.001Z")))
    by compute_done.
  reflexivity.
Defined.

(** * Further properties of the code *)

(** ** Lines *)

Lemma split_app_sep sep a b :
  split sep (a ++ sep :: b) = split sep a ++ split sep b.
Proof.
  induction a as [|c r IH]; simpl.
  - by rewrite N.eqb_refl.
  - destruct (c =? sep); [by rewrite IH|].
    rewrite IH. pose proof (split_nonempty sep r).
    by destruct (split sep r).
Qed.

Lemma tail_app_nonempty {A} (l k : list A) : l <> [] -> tail (l ++ k) = tail l ++ k.
Proof. by destruct l. Qed.

Lemma collect_append a b :
  collect (a ++ ch_newline :: b) = collect a ++ collect (ch_newline :: b).
Proof.
  assert (split ch_newline (ch_newline :: b) = [] :: split ch_newline b) as Hb
    by reflexivity.
  rewrite !collect_rows, split_app_sep, Hb.
  rewrite tail_app_nonempty by apply split_nonempty.
  by rewrite fmap_app, concat_app.
Qed.

Lemma row_step_length raw : (length (row_step [] raw) <= 1)%nat.
Proof.
  unfold row_step. destruct (trim raw) as [|c r]; [simpl; lia|].
  destruct (Nat.leb 9 _); [|simpl; lia].
  destruct (parseEbirdDate _) as [[|]|]; simpl; lia.
Qed.

Lemma concat_length_le {A} (ls : list (list A)) :
  Forall (fun l => (length l <= 1)%nat) ls -> (length (concat ls) <= length ls)%nat.
Proof.
  induction 1 as [|l ls Hl _ IH]; simpl; [lia|].
  rewrite length_app. lia.
Qed.

Lemma parseEbirdDate_nonempty s d : parseEbirdDate s = Some d -> d <> [].
Proof.
  unfold parseEbirdDate. destruct (negb (Nat.eqb _ 3)); [done|].
  destruct (negb (truthy _)); [done|].
  intros Heq. injection Heq as <-. intros Hnil.
  apply app_eq_nil in Hnil as [_ Hnil]. discriminate.
Qed.

Lemma row_step_null acc raw :
  parseEbirdDate (nth 8 (tokenize (trim raw)) []) = None -> row_step acc raw = acc.
Proof.
  intros H. unfold row_step. destruct (trim raw) as [|c r]; [done|].
  destruct (Nat.leb 9 _); [|done]. by rewrite H.
Qed.

Lemma row_step_kept acc raw d :
  (9 <= length (tokenize (trim raw)))%nat ->
  parseEbirdDate (nth 8 (tokenize (trim raw)) []) = Some d ->
  row_step acc raw = acc ++ [make_observation d (tokenize (trim raw))].
Proof.
  intros Hlen Hd. unfold row_step. destruct (trim raw) as [|c r].
  { simpl in Hlen. lia. }
  destruct (Nat.leb_spec 9 (length (tokenize (c :: r)))); [|lia].
  rewrite Hd. pose proof (parseEbirdDate_nonempty _ _ Hd). by destruct d.
Qed.

Lemma trimEnd_white s c : is_white c = true -> trimEnd (s ++ [c]) = trimEnd s.
Proof.
  intros Hc. induction s as [|x r IH]; simpl; [by rewrite Hc|]. by rewrite IH.
Qed.

Lemma trimStart_white s c :
  is_white c = true ->
  trimStart (s ++ [c]) = match trimStart s with [] => [] | t => t ++ [c] end.
Proof.
  intros Hc. induction s as [|x r IH]; simpl; [by rewrite Hc|].
  by destruct (is_white x).
Qed.

Lemma trim_white s c : is_white c = true -> trim (s ++ [c]) = trim s.
Proof.
  intros Hc. unfold trim. rewrite trimStart_white by done.
  destruct (trimStart s) as [|x r]; [done|]. by rewrite trimEnd_white.
Qed.

Lemma row_step_with_cr acc raw : row_step acc (with_cr raw) = row_step acc raw.
Proof. unfold row_step, with_cr. by rewrite trim_white. Qed.

(** ** The tokenizer *)

Lemma quoted_fields_unquoted line :
  free_of ch_quote line -> quoted_fields false line = split ch_comma line.
Proof.
  unfold free_of. induction line as [|c r IH]; intros Hfree; simpl; [done|].
  apply not_elem_of_cons in Hfree as [Hc Hr].
  destruct (N.eqb_spec c ch_quote) as [->|_]; [done|].
  rewrite andb_true_r. by rewrite IH.
Qed.

Lemma count_quotes_cons c r :
  count_quotes (c :: r)
  = if c =? ch_quote then S (count_quotes r) else count_quotes r.
Proof. unfold count_quotes. simpl. by destruct (c =? ch_quote). Qed.

Lemma quoted_fields_comma inside a b :
  inside = Nat.odd (count_quotes a) ->
  quoted_fields inside (a ++ ch_comma :: b)
  = quoted_fields inside a ++ quoted_fields false b.
Proof.
  revert inside. induction a as [|c r IH]; intros inside Hin.
  - subst inside. reflexivity.
  - rewrite count_quotes_cons in Hin. cbn [app quoted_fields].
    destruct (c =? ch_quote).
    + apply IH. subst inside. rewrite Nat.odd_succ, <- Nat.negb_odd.
      by rewrite negb_involutive.
    + destruct ((c =? ch_comma) && negb inside); [by rewrite IH|].
      rewrite IH by done.
      pose proof (quoted_fields_nonempty inside r).
      by destruct (quoted_fields inside r).
Qed.

Lemma quoted_fields_doubled inside a b :
  quoted_fields inside (a ++ ch_quote :: ch_quote :: b)
  = quoted_fields inside (a ++ b).
Proof.
  revert inside. induction a as [|c r IH]; intros inside.
  - cbn. by rewrite negb_involutive.
  - cbn [app quoted_fields]. by rewrite !IH.
Qed.

Lemma quoted_fields_inside s :
  free_of ch_quote s ->
  quoted_fields true s = [s] /\ quoted_fields true (s ++ [ch_quote]) = [s].
Proof.
  unfold free_of. induction s as [|c r IH]; intros Hfree; [done|].
  apply not_elem_of_cons in Hfree as [Hc Hr].
  destruct (IH Hr) as [IH1 IH2]. cbn [app quoted_fields].
  destruct (N.eqb_spec c ch_quote) as [->|_]; [done|].
  rewrite andb_false_r, IH1, IH2. done.
Qed.

Lemma tokenize_trimmed line i :
  trim (nth i (tokenize line) []) = nth i (tokenize line) [].
Proof.
  rewrite tokenize_fields.
  generalize (quoted_fields false line). intros fs. revert i.
  induction fs as [|f fs IH]; intros [|i]; simpl; try done.
  apply trim_idem.
Qed.

(** ** The date normalizer *)

Lemma trim_head s :
  trim s = [] \/ exists c r, trim s = c :: r /\ is_white c = false.
Proof.
  unfold trim. destruct (trimStart_head s) as [->|(c & r & -> & Hc)]; [by left|].
  right. destruct (trimEnd_head c r Hc) as [r' ->]. eauto.
Qed.

Lemma split_head sep c r :
  c <> sep -> exists f fs, split sep (c :: r) = (c :: f) :: fs.
Proof.
  intros Hc. simpl. destruct (N.eqb_spec c sep); [done|].
  pose proof (split_nonempty sep r). destruct (split sep r); [done|]. eauto.
Qed.

Lemma parseEbirdDate_first_token s t1 rest :
  split ch_space (trim s) = t1 :: rest -> rest <> [] -> t1 <> [].
Proof.
  intros Hsplit Hrest.
  destruct (trim_head s) as [Hnil|(c & r & Hcr & Hc)].
  - rewrite Hnil in Hsplit. inversion Hsplit; subst. done.
  - rewrite Hcr in Hsplit.
    destruct (split_head ch_space c r) as (f & fs & Hf).
    { intros ->. discriminate. }
    rewrite Hf in Hsplit. by injection Hsplit as <- _.
Qed.

Lemma iso_shape_length s : iso_shape s = true -> length s = 10%nat.
Proof.
  destruct s as [|? [|? [|? [|? [|? [|? [|? [|? [|? [|? [|]]]]]]]]]]]; done.
Qed.

Lemma iso_shape_tokens t1 m1 m2 t3 :
  t1 <> [] ->
  iso_shape (t3 ++ js "-" ++ [m1; m2] ++ js "-" ++ padStart 2 ch_zero t1) = true ->
  is_day t1 = true /\ is_year t3 = true.
Proof.
  intros Ht1 Hshape. pose proof (iso_shape_length _ Hshape) as Hlen.
  change (js "-") with [45] in *.
  unfold padStart in *. rewrite !length_app, length_replicate in Hlen.
  cbn [length] in Hlen.
  assert (is_digit 45 = false) as Hhyphen by reflexivity.
  destruct t3 as [|y1 [|y2 [|y3 [|y4 [|y5 t3]]]]]; cbn [length] in Hlen;
    destruct t1 as [|a [|b [|c [|d [|e [|f t1]]]]]]; cbn [length] in Hlen;
    try done; try lia;
    cbn in Hshape; unfold all_digits in Hshape; cbn [forallb] in Hshape;
    rewrite ?Hhyphen, ?andb_false_r in Hshape; try discriminate;
    try (by destruct t1);
    repeat (rewrite andb_true_iff in Hshape); destruct_and?;
    unfold is_day, is_year, all_digits; cbn;
    repeat match goal with H : is_digit _ = true |- _ => rewrite H; clear H end;
    done.
Qed.

(** X13: two space characters in a row inside the trimmed text make it
    unparseable: either the parts are not three, or the middle one is
    empty. *)
Lemma parseEbirdDate_double_space s a b :
  trim s = a ++ ch_space :: ch_space :: b -> parseEbirdDate s = None.
Proof.
  intros Htrim. unfold parseEbirdDate. rewrite Htrim.
  rewrite split_app_sep.
  assert (split ch_space (ch_space :: b) = [] :: split ch_space b) as -> by reflexivity.
  pose proof (split_nonempty ch_space a) as Ha.
  pose proof (split_nonempty ch_space b) as Hb.
  destruct (split ch_space a) as [|pa [|pa' pas]]; [done|..];
    destruct (split ch_space b) as [|pb [|pb' pbs]]; try done;
    cbn [app length]; rewrite ?length_app; cbn [length];
    match goal with
    | |- context [Nat.eqb ?n 3] => destruct (Nat.eqb_spec n 3); [lia|done]
    end.
Qed.

(** ** Sorting what is sorted, and the last record *)

Section ArraySortSorted.
Context {A : Type} (comparefn : A -> A -> option Z).
Context (key : A -> Z) (valid : A -> Prop).
Hypothesis comparefn_key :
  forall x y, valid x -> valid y -> comparefn x y = Some (key x - key y)%Z.

Lemma Array_sort_ascending l :
  Forall valid l ->
  StronglySorted (fun a b => (key a <= key b)%Z) l ->
  Array_sort comparefn l = l.
Proof.
  intros Hl Hs. induction Hs as [|x l Hs IH Hx]; [done|].
  inversion Hl as [|? ? Hvx Hvl]; subst. simpl.
  fold (Array_sort comparefn l). rewrite IH by done.
  destruct l as [|y r]; [done|]. simpl.
  inversion Hvl; subst. inversion Hx; subst.
  unfold sorts_before. rewrite (comparefn_key y x) by done.
  destruct (Z.ltb_spec (key y - key x) 0); [lia | done].
Qed.

End ArraySortSorted.

Lemma str_ltb_irrefl a : str_ltb a a = false.
Proof.
  induction a as [|x a IH]; [done|]. simpl.
  by rewrite N.ltb_irrefl, N.eqb_refl, IH.
Qed.

Lemma str_ltb_connected a b : str_ltb a b = false -> str_ltb b a = false -> a = b.
Proof.
  revert b. induction a as [|x a IH]; intros [|y b]; simpl; try done.
  destruct (N.ltb_spec x y), (N.ltb_spec y x), (N.eqb_spec x y), (N.eqb_spec y x);
    simpl; try done; try lia.
  intros Hab Hba. subst. f_equal. by apply IH.
Qed.

Lemma time_of_date a b : date a = date b -> time_of a = time_of b.
Proof. unfold time_of. by intros ->. Qed.

Lemma str_leb_time a b :
  calendar_date (date a) = true -> calendar_date (date b) = true ->
  str_leb (date a) (date b) = true -> (time_of a <= time_of b)%Z.
Proof.
  intros Ha Hb Hle. unfold str_leb in Hle. apply negb_true_iff in Hle.
  destruct (str_ltb (date a) (date b)) eqn:Hlt.
  - destruct (calendar_date_inv _ Ha) as (? & ? & ? & ? & ? & ? & ? & ? & _ & _ & Hfa & _).
    destruct (calendar_date_inv _ Hb) as (? & ? & ? & ? & ? & ? & ? & ? & _ & _ & Hfb & _).
    pose proof (calendar_date_ltb _ _ _ _ _ _ _ _ Ha Hb Hfa Hfb Hlt).
    unfold time_of. rewrite Hfa, Hfb. unfold Date.msPerDay. lia.
  - rewrite (time_of_date a b); [lia|]. by apply str_ltb_connected.
Qed.

Lemma parseCSV_date_sorted other csvContent :
  Forall (fun o => calendar_date (date o) = true) (collect csvContent) ->
  date_sorted (parseCSV other csvContent).
Proof.
  intros Hdates. unfold date_sorted, parseCSV.
  eapply (StronglySorted_valid _ _ (fun o => calendar_date (date o) = true)).
  - by rewrite Array_sort_perm.
  - apply time_of_leb.
  - eapply Array_sort_sorted; [apply by_date_time | done].
Qed.

Lemma StronglySorted_last {A} (R : A -> A -> Prop) l x :
  (forall a, R a a) -> StronglySorted R l -> last l = Some x -> Forall (fun o => R o x) l.
Proof.
  intros Hrefl Hs. induction Hs as [|y l Hs IH Hy]; [done|].
  destruct l as [|z l'].
  - intros [= ->]. by repeat constructor.
  - intros Hlast. change (last (y :: z :: l')) with (last (z :: l')) in Hlast.
    constructor; [|by apply IH].
    rewrite Forall_forall in Hy. apply Hy.
    apply last_Some in Hlast as [l'' ->]. apply elem_of_app. right. by left.
Qed.

(** ** Properties of [parseCSV] beyond the claims *)

(** X1: a data line yields an observation exactly when it has at least
    nine columns and its ninth column normalizes to a date; then the record
    of its columns is appended, and otherwise the observations stay as
    they were.  The truthiness test on the date rejects no normalized
    date, and a blank line is a line of one column. *)
Theorem row_step_cases (acc : list observation) (raw : jsstr) :
  (forall d,
     (9 <= length (tokenize (trim raw)))%nat ->
     parseEbirdDate (nth 8 (tokenize (trim raw)) []) = Some d ->
     row_step acc raw = acc ++ [make_observation d (tokenize (trim raw))])
  /\ ((length (tokenize (trim raw)) < 9)%nat
      \/ parseEbirdDate (nth 8 (tokenize (trim raw)) []) = None ->
      row_step acc raw = acc).
Proof.
  split.
  - intros d Hlen Hd. by apply row_step_kept.
  - intros [Hshort|Hnull]; [by apply row_step_short | by apply row_step_null].
Qed.

(** X2: a row whose date column does not normalize is dropped: the result
    is the one of the text without that row. *)
Theorem parseCSV_undated_rows_dropped (other : jsstr -> option Z)
    (hdr : jsstr) (before : list jsstr) (row : jsstr) (after : list jsstr) :
  Forall (free_of ch_newline) (hdr :: before ++ row :: after) ->
  parseEbirdDate (nth 8 (tokenize (trim row)) []) = None ->
  parseCSV other (join ch_newline (hdr :: before ++ row :: after))
  = parseCSV other (join ch_newline (hdr :: before ++ after)).
Proof.
  intros Hfree Hnull. unfold parseCSV.
  rewrite collect_without; [done | done | by apply row_step_null].
Qed.

(** X3: a line feed at the end of the text changes nothing. *)
Theorem parseCSV_trailing_newline (other : jsstr -> option Z) (csvContent : jsstr) :
  parseCSV other (csvContent ++ [ch_newline]) = parseCSV other csvContent.
Proof.
  unfold parseCSV. rewrite collect_append.
  assert (collect [ch_newline] = []) as -> by reflexivity.
  by rewrite app_nil_r.
Qed.

Lemma with_cr_free line : free_of ch_newline line -> free_of ch_newline (with_cr line).
Proof.
  unfold free_of, with_cr. intros H [Hin|Hin]%elem_of_app; [done|].
  by apply list_elem_of_singleton in Hin.
Qed.

(** X4: a text with CRLF line ends gives the result of the same lines
    with LF line ends: the carriage return left at the end of each line
    is trimmed away. *)
Theorem parseCSV_crlf (other : jsstr -> option Z) (lines : list jsstr) :
  lines <> [] ->
  Forall (free_of ch_newline) lines ->
  parseCSV other (join ch_newline (with_cr <$> lines))
  = parseCSV other (join ch_newline lines).
Proof.
  intros Hne Hfree. destruct lines as [|hdr rows]; [done|].
  inversion Hfree as [|? ? Hhdr Hrows]; subst.
  unfold parseCSV. f_equal. rewrite fmap_cons.
  rewrite !collect_join.
  - f_equal. rewrite <- list_fmap_compose. apply list_fmap_ext.
    intros i raw _. apply row_step_with_cr.
  - done.
  - constructor; [by apply with_cr_free|].
    apply Forall_fmap. eapply Forall_impl; [exact Hrows|]. apply with_cr_free.
Qed.

(** X5: lines are processed one by one and in order, so parsing a text
    gives the records of its part before a line feed, followed (before the
    sort) by those of the lines after it. *)
Theorem parseCSV_append (other : jsstr -> option Z) (a b : jsstr) :
  collect (a ++ ch_newline :: b) = collect a ++ collect (ch_newline :: b)
  /\ parseCSV other (a ++ ch_newline :: b)
     ≡ₚ parseCSV other a ++ parseCSV other (ch_newline :: b).
Proof.
  split; [apply collect_append|].
  by rewrite !parseCSV_perm, collect_append.
Qed.

(** X6: there are never more observations than lines after the first. *)
Theorem parseCSV_at_most_one_per_line (other : jsstr -> option Z) (csvContent : jsstr) :
  (length (parseCSV other csvContent) <= length (split ch_newline csvContent) - 1)%nat.
Proof.
  rewrite parseCSV_perm, collect_rows.
  etrans; [apply concat_length_le|].
  - apply Forall_fmap, Forall_forall. intros raw _. apply row_step_length.
  - rewrite length_fmap. destruct (split ch_newline csvContent); simpl; lia.
Qed.

(** X11: the scientific name, common name, location and region of every
    observation carry no white space at either end. *)
Theorem parseCSV_fields_trimmed (other : jsstr -> option Z) (csvContent : jsstr) :
  Forall (fun o => trim (sciName o) = sciName o /\ trim (common o) = common o
                   /\ trim (location o) = location o /\ trim (region o) = region o)
    (parseCSV other csvContent).
Proof.
  rewrite Forall_forall. intros o Ho. rewrite parseCSV_perm in Ho.
  apply collect_inv in Ho as (raw & _ & Ho).
  apply row_step_inv in Ho as (d & _ & _ & ->).
  unfold make_observation. cbn [sciName common location region].
  rewrite strip_quotes_free by apply nth_free, tokenize_free.
  repeat split; apply tokenize_trimmed.
Qed.

(** X14: when the rows already come in ascending order of their calendar
    dates, the sort moves nothing: the result is the sequence of the rows. *)
Theorem parseCSV_sorted_input_unchanged (other : jsstr -> option Z) (csvContent : jsstr) :
  Forall (fun o => calendar_date (date o) = true) (collect csvContent) ->
  date_sorted (collect csvContent) ->
  parseCSV other csvContent = collect csvContent.
Proof.
  intros Hdates Hsorted. unfold parseCSV.
  eapply (Array_sort_ascending _ time_of (fun o => calendar_date (date o) = true)).
  - apply by_date_time.
  - done.
  - eapply (StronglySorted_valid _ _ (fun o => calendar_date (date o) = true));
      [done | apply str_leb_time | exact Hsorted].
Qed.

(** ** Properties of the tokenizer beyond the claims *)

(** X7: on a line without quote characters the tokenizer is the split at
    the commas followed by the trim of every part. *)
Theorem tokenize_unquoted (line : jsstr) :
  free_of ch_quote line -> tokenize line = trim <$> split ch_comma line.
Proof. intros H. by rewrite tokenize_fields, quoted_fields_unquoted. Qed.

(** X8: a comma after an even number of quote characters separates: the
    columns of the line are those of the text before the comma followed by
    those of the text after it. *)
Theorem tokenize_comma (a b : jsstr) :
  Nat.even (count_quotes a) = true ->
  tokenize (a ++ ch_comma :: b) = tokenize a ++ tokenize b.
Proof.
  intros Heven. rewrite !tokenize_fields, quoted_fields_comma, fmap_app; [done|].
  by rewrite <- Nat.negb_even, Heven.
Qed.

(** X9: two quote characters in a row cancel: they are dropped and leave
    the mode as it was, so a doubled quote inside a quoted field does not
    stand for a quote character. *)
Theorem tokenize_doubled_quote (a b : jsstr) :
  tokenize (a ++ ch_quote :: ch_quote :: b) = tokenize (a ++ b).
Proof. by rewrite !tokenize_fields, quoted_fields_doubled. Qed.

(** X10: a text without quote characters put between two quotes is one
    column, whatever commas it holds, and so is the text after a quote
    that is never closed; the white space at its ends is trimmed all the
    same. *)
Theorem tokenize_quoted_field (s : jsstr) :
  free_of ch_quote s ->
  tokenize (ch_quote :: s ++ [ch_quote]) = [trim s]
  /\ tokenize (ch_quote :: s) = [trim s].
Proof.
  intros Hfree. destruct (quoted_fields_inside s Hfree) as [Hopen Hclosed].
  rewrite !tokenize_fields. cbn [quoted_fields].
  change (ch_quote =? ch_quote) with true. cbn [negb].
  by rewrite Hopen, Hclosed.
Qed.

(** ** Properties of the date normalizer beyond the claims *)

(** X12: for a recognized month the result has the shape [YYYY-MM-DD]
    exactly when the first token is a day of one or two digits and the
    third a year of four digits. *)
Theorem parseEbirdDate_iso_shape (s t1 mon mm t3 : jsstr) :
  split ch_space (trim s) = [t1; mon; t3] ->
  assoc mon months = Some mm ->
  exists d, parseEbirdDate s = Some d
    /\ (iso_shape d = true <-> is_day t1 = true /\ is_year t3 = true).
Proof.
  intros Hparts Hmon. eexists. split; [by eapply parseEbirdDate_parts|].
  destruct (months_inv _ _ Hmon) as (_ & _ & m1 & m2 & -> & Hm1 & Hm2). split.
  - apply iso_shape_tokens. by eapply parseEbirdDate_first_token.
  - intros [Hd Hy]. apply ebird_date_shape; eauto.
Qed.

(** ** The data step and the report *)

(** X15: the data step never fails, whatever [data.json] holds, and the
    export it builds carries the observations of the downloaded text alone,
    the second timestamp as [exportedAt] and the first as [lastSync]. *)
Theorem buildDataJson_overwrites (JSON_parse : jsstr -> option json)
    (other : jsstr -> option Z) (csvContent : jsstr) (file : option jsstr)
    (now1 now2 : jsstr) :
  exists e,
    buildDataJson JSON_parse other csvContent file now1 now2 = Normal e
    /\ observations e = parseCSV other csvContent
    /\ exportedAt e = now2
    /\ profile e !! js "lastSync" = Some (JString now1).
Proof.
  unfold buildDataJson.
  assert (exists p, getExistingProfile JSON_parse file = Normal p) as [p ->].
  { unfold getExistingProfile, try_catch. destruct (andThen _ _); eauto. }
  eexists. split; [done|]. repeat split. apply lookup_insert_eq.
Qed.

Lemma getExistingProfile_object JSON_parse text props :
  JSON_parse text = Some (JObject props) ->
  getExistingProfile JSON_parse (Some text)
  = Normal (or_empty_object (props !! js "profile")).
Proof.
  intros Hparse. unfold getExistingProfile, JSON_parse_call. simpl.
  by rewrite Hparse.
Qed.

(** X16: when [data.json] holds an object whose [profile] is an object,
    the new profile is that object with [lastSync] set anew; a [lastSync]
    written by an earlier import is replaced, so importing again gives the
    profile that the earlier import started from, with the new time. *)
Theorem buildDataJson_reimport (JSON_parse : jsstr -> option json)
    (other : jsstr -> option Z) (csvContent text : jsstr)
    (props prior : gmap jsstr json) (now1 now2 : jsstr) :
  JSON_parse text = Some (JObject props) ->
  props !! js "profile" = Some (JObject prior) ->
  exists e,
    buildDataJson JSON_parse other csvContent (Some text) now1 now2 = Normal e
    /\ profile e = <[js "lastSync" := JString now1]> prior
    /\ forall before earlier,
         prior = <[js "lastSync" := JString earlier]> before ->
         profile e = <[js "lastSync" := JString now1]> before.
Proof.
  intros Hparse Hprofile. unfold buildDataJson.
  rewrite (getExistingProfile_object _ _ _ Hparse), Hprofile. simpl.
  eexists. split; [done|]. split; [done|].
  intros before earlier ->. simpl. apply insert_insert_eq.
Qed.

(** X18: the prior profile is returned exactly as stored when [data.json]
    holds an object with a truthy [profile]; a text that parses to anything
    but an object, [null] included, and an object whose [profile] is
    missing or falsy give the empty object. *)
Theorem getExistingProfile_cases (JSON_parse : jsstr -> option json) (text : jsstr) :
  (forall props p,
     JSON_parse text = Some (JObject props) ->
     props !! js "profile" = Some p -> json_truthy p = true ->
     getExistingProfile JSON_parse (Some text) = Normal p)
  /\ (forall props,
        JSON_parse text = Some (JObject props) ->
        (props !! js "profile" = None
         \/ exists p, props !! js "profile" = Some p /\ json_truthy p = false) ->
        getExistingProfile JSON_parse (Some text) = Normal (JObject ∅))
  /\ (forall v,
        JSON_parse text = Some v -> (forall props, v <> JObject props) ->
        getExistingProfile JSON_parse (Some text) = Normal (JObject ∅)).
Proof.
  split; [|split].
  - intros props p Hparse Hp Htruthy.
    rewrite (getExistingProfile_object _ _ _ Hparse), Hp. simpl. by rewrite Htruthy.
  - intros props Hparse [Hnone|(p & Hp & Hfalsy)];
      rewrite (getExistingProfile_object _ _ _ Hparse).
    + by rewrite Hnone.
    + rewrite Hp. simpl. by rewrite Hfalsy.
  - intros v Hparse Hv. unfold getExistingProfile, JSON_parse_call. simpl.
    rewrite Hparse. destruct v; simpl; try done. by destruct (Hv props).
Qed.

Lemma str_leb_refl a : str_leb a a = true.
Proof. unfold str_leb. by rewrite str_ltb_irrefl. Qed.

(** X17: without observations the report has no line for the latest one;
    with observations whose dates are all calendar dates, its third line
    names the last record of the result, and no record of the result has a
    later date. *)
Theorem summary_lines_latest (other : jsstr -> option Z) (csvContent : jsstr) :
  length (summary_lines []) = 2%nat
  /\ (Forall (fun o => calendar_date (date o) = true) (collect csvContent) ->
      parseCSV other csvContent <> [] ->
      exists latest,
        last (parseCSV other csvContent) = Some latest
        /\ summary_lines (parseCSV other csvContent) !! 2%nat
           = Some (js "   Latest: " ++ common latest ++ js " (" ++ date latest ++ js ")")
        /\ Forall (fun o => str_leb (date o) (date latest) = true)
             (parseCSV other csvContent)).
Proof.
  split; [reflexivity|]. intros Hdates Hne.
  pose proof (parseCSV_date_sorted other csvContent Hdates) as Hsorted.
  destruct (last (parseCSV other csvContent)) as [latest|] eqn:Hlast;
    [|by apply last_None in Hlast].
  exists latest. split; [done|]. split.
  - unfold summary_lines. rewrite last_lookup in Hlast.
    replace (length (parseCSV other csvContent) - 1)%nat
      with (pred (length (parseCSV other csvContent))) by lia.
    rewrite Hlast.
    destruct (parseCSV other csvContent); [done|]. reflexivity.
  - apply (StronglySorted_last (fun a b => str_leb (date a) (date b) = true));
      [|exact Hsorted|exact Hlast].
    intros a. apply str_leb_refl.
Qed.

(** ** The further theorems at concrete inputs *)

Lemma row_step_cases_witness :
  row_step [] short_row = []
  /\ row_step [] (robin_row (js "Fresh Pond") (js "5 Jan 2024"))
     = [robin (js "Fresh Pond") (js "2024-01-05")].
Proof.
  split.
  - apply (proj2 (row_step_cases [] short_row)). left. vm_compute. lia.
  - apply (proj1 (row_step_cases [] (robin_row (js "Fresh Pond") (js "5 Jan 2024")))
             (js "2024-01-05")); [vm_compute; lia | reflexivity].
Defined.

Lemma parseCSV_undated_rows_dropped_witness :
  parseCSV no_other_dates
    (join ch_newline (header_line :: [robin_row (js "Fresh Pond") (js "5 Jan 2024")]
                      ++ undated_row :: []))
  = parseCSV no_other_dates
      (join ch_newline (header_line :: [robin_row (js "Fresh Pond") (js "5 Jan 2024")] ++ [])).
Proof.
  apply (parseCSV_undated_rows_dropped no_other_dates).
  - compute_done.
  - reflexivity.
Defined.

Lemma parseCSV_crlf_witness :
  parseCSV no_other_dates (join ch_newline (with_cr <$> header_line :: three_rows))
  = parseCSV no_other_dates (join ch_newline (header_line :: three_rows)).
Proof.
  apply (parseCSV_crlf no_other_dates (header_line :: three_rows)).
  - discriminate.
  - compute_done.
Defined.

Lemma sorted_rows_sorted :
  date_sorted (collect (join ch_newline (header_line :: sorted_rows))).
Proof.
  unfold date_sorted.
  assert (collect (join ch_newline (header_line :: sorted_rows))
          = [ robin (js "Mount Auburn") (js "2024-01-01");
              robin (js "Boston Common") (js "2024-01-05");
              robin (js "Fresh Pond") (js "2024-03-02") ]) as -> by reflexivity.
  repeat constructor.
Qed.

Lemma parseCSV_sorted_input_unchanged_witness :
  parseCSV no_other_dates (join ch_newline (header_line :: sorted_rows))
  = collect (join ch_newline (header_line :: sorted_rows)).
Proof.
  apply (parseCSV_sorted_input_unchanged no_other_dates).
  - compute_done.
  - exact sorted_rows_sorted.
Defined.

Lemma tokenize_unquoted_witness :
  tokenize (js " amerob , American Robin,US-MA ")
  = trim <$> split ch_comma (js " amerob , American Robin,US-MA ").
Proof. apply tokenize_unquoted. compute_done. Defined.

Lemma tokenize_comma_witness :
  tokenize ((js "A," ++ quoted (js "B, C")) ++ ch_comma :: js "D")
  = tokenize (js "A," ++ quoted (js "B, C")) ++ tokenize (js "D").
Proof. apply tokenize_comma. reflexivity. Defined.

Lemma tokenize_quoted_field_witness :
  tokenize (ch_quote :: js " Fresh Pond, Cambridge " ++ [ch_quote])
  = [js "Fresh Pond, Cambridge"].
Proof.
  apply (proj1 (tokenize_quoted_field (js " Fresh Pond, Cambridge ") ltac:(compute_done))).
Defined.

Lemma parseEbirdDate_iso_shape_witness :
  exists d, parseEbirdDate (js "x Jan 20244") = Some d
    /\ (iso_shape d = true <-> is_day (js "x") = true /\ is_year (js "20244") = true).
Proof.
  exact (parseEbirdDate_iso_shape (js "x Jan 20244") (js "x") (js "Jan") (js "01")
           (js "20244") eq_refl eq_refl).
Defined.

Lemma parseEbirdDate_double_space_witness :
  parseEbirdDate (js "5  Jan 2024") = None.
Proof.
  exact (parseEbirdDate_double_space (js "5  Jan 2024") (js "5") (js "Jan 2024") eq_refl).
Defined.

Lemma buildDataJson_reimport_witness :
  exists e,
    buildDataJson parse_template no_other_dates
      (join ch_newline (header_line :: three_rows)) (Some template_text)
      (js "2024-03-03T07:00:00.000Z") (js "2024-03-03T07:00:00.001Z") = Normal e
    /\ profile e = <[js "lastSync" := JString (js "2024-03-03T07:00:00.000Z")]> template_profile.
Proof.
  destruct (buildDataJson_reimport parse_template no_other_dates
              (join ch_newline (header_line :: three_rows)) template_text
              {[ js "profile" := JObject template_profile ]} template_profile
              (js "2024-03-03T07:00:00.000Z") (js "2024-03-03T07:00:00.001Z")
              eq_refl (lookup_singleton_eq _ _)) as (e & He & Hp & _).
  by exists e.
Defined.

Lemma getExistingProfile_cases_witness :
  getExistingProfile parse_template (Some template_text)
  = Normal (JObject template_profile).
Proof.
  apply (proj1 (getExistingProfile_cases parse_template template_text)
           {[ js "profile" := JObject template_profile ]}).
  - reflexivity.
  - apply lookup_singleton_eq.
  - reflexivity.
Defined.

Lemma summary_lines_latest_witness :
  exists latest,
    last (parseCSV no_other_dates (join ch_newline (header_line :: three_rows)))
    = Some latest
    /\ summary_lines (parseCSV no_other_dates (join ch_newline (header_line :: three_rows)))
       !! 2%nat
       = Some (js "   Latest: " ++ common latest ++ js " (" ++ date latest ++ js ")")
    /\ Forall (fun o => str_leb (date o) (date latest) = true)
         (parseCSV no_other_dates (join ch_newline (header_line :: three_rows))).
Proof.
  apply (proj2 (summary_lines_latest no_other_dates
                  (join ch_newline (header_line :: three_rows)))).
  - compute_done.
  - vm_compute. discriminate.
Defined.
